(** * CryptoBot alert engine: a shallow embedding of [bot.py]

    The development follows the alert part of [bot.py]:
    the JSON storage helpers ([_safe_read_json], [_safe_write_json],
    [load_alerts], [save_alerts]), the alert operations
    ([parse_alert_input], [get_symbol_price], [add_alert], [list_alerts],
    [deactivate_alert], the [off N] handler) and one iteration of the
    [while True] loop of [alerts_checker].

    Modelling choices.
    - Python [str] is [string] (ASCII); Python [float] is a binary64 value
      of [spec_float]; Python [int] is [Z].
    - An alert is the dictionary that [add_alert] writes: all six keys
      present, each with the type [add_alert] gives it.  The [.get]
      defaults of the source are therefore never taken.
    - The file [data/alerts.json] is a [file_state]; a raising Python call
      is [Raise] in the [outcome] type and each [try/except] of the source
      is a match on it.
    - Network calls, the chat channel and the file system are oracles of
      an [env] record; one [env] describes the outside world during one
      operation or one cycle.  Every call to the outside is appended to
      a log of events, and an oracle answers from the log so far and the
      request, so that two calls with the same request may differ.
    - The sleeps of the loop are left out. *)

From Stdlib Require Import ZArith NArith Ascii String Bool.
From Stdlib Require Import Floats.SpecFloat.
From stdpp Require Import base option list gmap strings sorting pretty.

Local Open Scope string_scope.
Local Open Scope list_scope.

(** ** Python strings (ASCII fragment) *)

Module PyStr.

Definition code (c : ascii) : N := N_of_ascii c.

(** [str.isspace] on a code point below 128. *)
Definition isspace (c : ascii) : bool :=
  let n := code c in
  ((9 <=? n) && (n <=? 13) || (28 <=? n) && (n <=? 32))%N.

Definition isdigit (c : ascii) : bool :=
  let n := code c in ((48 <=? n) && (n <=? 57))%N.

Definition digit_val (c : ascii) : N := (code c - 48)%N.

Definition upper_char (c : ascii) : ascii :=
  let n := code c in
  if ((97 <=? n) && (n <=? 122))%N then ascii_of_N (n - 32) else c.

Definition lower_char (c : ascii) : ascii :=
  let n := code c in
  if ((65 <=? n) && (n <=? 90))%N then ascii_of_N (n + 32) else c.

Fixpoint map_chars (f : ascii -> ascii) (s : string) : string :=
  match s with
  | EmptyString => EmptyString
  | String c r => String (f c) (map_chars f r)
  end.

(** [s.upper()] and [s.lower()]. *)
Definition upper : string -> string := map_chars upper_char.
Definition lower : string -> string := map_chars lower_char.

(** [s.replace(old, new)] for one-character [old] and [new]. *)
Definition replace (old new : ascii) : string -> string :=
  map_chars (fun c => if Ascii.eqb c old then new else c).

Fixpoint lstrip (s : string) : string :=
  match s with
  | String c r => if isspace c then lstrip r else s
  | EmptyString => EmptyString
  end.

Fixpoint rev_onto (s acc : string) : string :=
  match s with
  | EmptyString => acc
  | String c r => rev_onto r (String c acc)
  end.

Definition rev (s : string) : string := rev_onto s EmptyString.

Definition rstrip (s : string) : string := rev (lstrip (rev s)).

(** [s.strip()]. *)
Definition strip (s : string) : string := rstrip (lstrip s).

(** [s.split()]: the maximal runs of non-whitespace characters.
    [cur] is the run being read, reversed; [None] outside a run. *)
Fixpoint split_go (cur : option string) (s : string) : list string :=
  match s with
  | EmptyString =>
      match cur with Some w => [rev w] | None => [] end
  | String c r =>
      if isspace c then
        match cur with
        | Some w => rev w :: split_go None r
        | None => split_go None r
        end
      else
        match cur with
        | Some w => split_go (Some (String c w)) r
        | None => split_go (Some (String c EmptyString)) r
        end
  end.

Definition split : string -> list string := split_go None.

(** Truth value of a string: [not s] is true on the empty string. *)
Definition truthy (s : string) : bool :=
  match s with EmptyString => false | _ => true end.

End PyStr.

(** ** Python floats *)

Module PyFloat.

Definition float := spec_float.

Definition prec : Z := 53.
Definition emax : Z := 1024.

(** [a <= b], [a >= b] and [a == b] on floats; false when either side
    is NaN. *)
Definition le (a b : float) : bool := SFleb a b.
Definition ge (a b : float) : bool := SFleb b a.
Definition eq (a b : float) : bool := SFeqb a b.


Definition zero : float := S754_zero false.

(** [x > 0]. *)
Definition positive (x : float) : bool := SFltb zero x.

(** The binary64 nearest to [(-1)^neg * m * 10^e], ties to even. *)
Definition of_decimal (neg : bool) (m : N) (e : Z) : float :=
  match m with
  | N0 => S754_zero neg
  | Npos p =>
      if (0 <=? e)%Z then
        binary_round prec emax neg (p * Z.to_pos (10 ^ e)) 0
      else
        SFdiv prec emax (S754_finite neg p 0)
              (S754_finite false (Z.to_pos (10 ^ (- e))) 0)
  end.

(** A run of decimal digits in which single underscores may separate
    two digits.  Returns the number read so far, the count of digits
    and the unread rest. *)
Fixpoint digits (acc : N) (cnt : nat) (s : string) : N * nat * string :=
  match s with
  | String c r =>
      if PyStr.isdigit c then
        digits (acc * 10 + PyStr.digit_val c) (S cnt) r
      else if Ascii.eqb c "_" then
        match cnt, r with
        | S _, String d _ =>
            if PyStr.isdigit d then digits acc cnt r else (acc, cnt, s)
        | _, _ => (acc, cnt, s)
        end
      else (acc, cnt, s)
  | EmptyString => (acc, cnt, s)
  end.

Definition sign (s : string) : bool * string :=
  match s with
  | String "+" r => (false, r)
  | String "-" r => (true, r)
  | _ => (false, s)
  end.

(** The optional exponent part: [e] or [E], an optional sign and at
    least one digit; the whole rest of the text must be consumed. *)
Definition exponent (s : string) : option Z :=
  match s with
  | EmptyString => Some 0%Z
  | String c r =>
      if Ascii.eqb (PyStr.lower_char c) "e" then
        let '(neg, r) := sign r in
        match digits 0 0 r with
        | (n, S _, EmptyString) =>
            Some (if neg then (- Z.of_N n)%Z else Z.of_N n)
        | _ => None
        end
      else None
  end.

(** The decimal forms: [digits [. [digits]] [exponent]] and
    [. digits [exponent]]. *)
Definition decimal (s : string) : option (N * Z) :=
  let '(i, ni, r) := digits 0 0 s in
  let '(m, nf, r) :=
    match r with
    | String "." r' =>
        let '(m, n, r'') := digits i 0 r' in (m, n, r'')
    | _ => (i, O, r)
    end in
  match (ni + nf)%nat with
  | O => None
  | S _ => e ← exponent r; Some (m, (e - Z.of_nat nf)%Z)
  end.

(** [float(s)] for a string: [None] stands for [ValueError]. *)
Definition of_string (s : string) : option float :=
  let '(neg, body) := sign (PyStr.strip s) in
  let w := PyStr.lower body in
  if String.eqb w "inf" || String.eqb w "infinity" then
    Some (S754_infinity neg)
  else if String.eqb w "nan" then Some S754_nan
  else '(m, e) ← decimal body; Some (of_decimal neg m e).

End PyFloat.

Abbreviation float := PyFloat.float.

(** ** Data model *)

(** The dictionary written by [add_alert]. *)
Record alert := Alert {
  user_id : Z;
  symbol : string;
  direction : string;
  target : float;
  active : bool;
  created_at : string
}.

(** [a["active"] = False]: the only field update of the program. *)
Definition set_inactive (a : alert) : alert :=
  {| user_id := user_id a; symbol := symbol a; direction := direction a;
     target := target a; active := false; created_at := created_at a |}.

(** What [json.loads] can return for the text of [alerts.json]: a list of
    alert dictionaries, or a document of another shape. *)
Inductive json :=
  | JNull
  | JBool (b : bool)
  | JInt (n : Z)
  | JFloat (x : float)
  | JStr (s : string)
  | JDict
  | JList (items : list alert).

(** The file behind [ALERTS_FILE]. *)
Inductive file_state :=
  | Absent                      (* [path.exists()] is false *)
  | Unreadable                  (* [path.read_text] raises *)
  | Malformed (text : string)   (* [json.loads] raises on the text *)
  | Holds (doc : json).

(** The text sent by the checker, before formatting: the recipient, the
    language chosen by [get_lang] and the four values interpolated in the
    message. *)
Record notification := Notification {
  n_user : Z;
  n_lang : string;
  n_symbol : string;
  n_direction : string;
  n_target : float;
  n_price : float
}.

Inductive outcome (A : Type) :=
  | Ret (a : A)
  | Raise.
Arguments Ret {A} a.
Arguments Raise {A}.

(** What an operation does to the outside world, in order.  A [Send]
    records the position in the loaded list of the alert the message is
    about. *)
Inductive event :=
  | Fetch (sym : string) (answer : outcome (option float))
  | Send (i : nat) (n : notification) (delivered : bool)
  | Write (doc : json) (written : bool).

(** The outside world during one operation.  Every oracle sees the
    events that happened before the call. *)
Record env := Env {
  (* [get_crypto_price(coin_id, vs)] *)
  get_crypto_price : list event -> string -> string -> outcome (option float);
  (* [get_nbu_rate(code)] *)
  get_nbu_rate : list event -> string -> outcome (option float);
  (* [get_lang(user_id)] *)
  get_lang : Z -> string;
  (* does [bot.send_message] return (true) or raise (false) *)
  send_message : list event -> notification -> bool;
  (* does [path.write_text] succeed (true) or raise (false) *)
  write_text : list event -> json -> bool;
  (* [datetime.utcnow().isoformat()] *)
  utcnow : string
}.

(** ** A state and exception monad *)

Record world := World { disk : file_state; log : list event }.

Definition io (A : Type) : Type := world -> world * outcome A.

Definition ret {A} (a : A) : io A := fun w => (w, Ret a).

Definition bind {A B} (m : io A) (k : A -> io B) : io B :=
  fun w =>
    match m w with
    | (w', Ret a) => k a w'
    | (w', Raise) => (w', Raise)
    end.

Definition raise {A} : io A := fun w => (w, Raise).

(** [try: m  except Exception: h] *)
Definition try_except {A} (m : io A) (h : io A) : io A :=
  fun w =>
    match m w with
    | (w', Raise) => h w'
    | r => r
    end.

Definition emit (e : event) : io unit :=
  fun w => ({| disk := disk w; log := log w ++ [e] |}, Ret tt).

Declare Scope io_scope.
Delimit Scope io_scope with io.
Notation "'do' x <- m ; k" := (bind m (fun x => k))
  (at level 10, x binder, m at level 100, k at level 200) : io_scope.
Local Open Scope io_scope.

(** ** JSON storage helpers *)

Definition path_exists : io bool :=
  fun w => (w, Ret match disk w with Absent => false | _ => true end).

(** [json.loads(path.read_text(encoding="utf-8"))] *)
Definition read_json : io json :=
  fun w => (w, match disk w with Holds d => Ret d | _ => Raise end).

Definition _safe_read_json (default : json) : io json :=
  try_except
    (do e <- path_exists;
     if negb e then ret default else read_json)
    (ret default).

(** [path.parent.mkdir(...); path.write_text(json.dumps(data, ...))].
    A write that fails is one that fails before the file is touched (in
    [mkdir], in [json.dumps] or on opening the file): the file stays as
    it was. *)
Definition write_json (E : env) (data : json) : io unit :=
  fun w =>
    let ok := write_text E (log w) data in
    ({| disk := if ok then Holds data else disk w;
        log := log w ++ [Write data ok] |},
     if ok then Ret tt else Raise).

Definition _safe_write_json (E : env) (data : json) : io unit :=
  try_except (write_json E data) (ret tt).

Definition load_alerts : io (list alert) :=
  do data <- _safe_read_json (JList []);
  ret match data with JList items => items | _ => [] end.

Definition save_alerts (E : env) (items : list alert) : io unit :=
  _safe_write_json E (JList items).

(** ** Alerts *)

Definition COIN_IDS : gmap string string :=
  <["BTC" := "bitcoin"]> (<["ETH" := "ethereum"]>
  (<["SOL" := "solana"]> (<["USDT" := "tether"]> ∅))).

Definition FX_PAIRS : list string := ["USDUAH"; "EURUAH"].

(** [x in xs] for a small set or list of strings. *)
Definition str_in (x : string) (xs : list string) : bool :=
  existsb (String.eqb x) xs.

(** [key in d] for a dictionary. *)
Definition has_key {V} (d : gmap string V) (key : string) : bool :=
  match d !! key with Some _ => true | None => false end.

Definition parse_alert_input (text : string)
  : option (string * string * float) :=
  if negb (PyStr.truthy text) then None
  else
    let s := PyStr.replace "," "." (PyStr.upper (PyStr.strip text)) in
    let parts := PyStr.split s in
    let parts :=
      match parts with
      | p0 :: p1 :: rest =>
          if (4 <=? length parts)%nat && str_in p0 ["USD"; "EUR"]
             && String.eqb p1 "UAH"
          then (p0 ++ p1)%string :: rest
          else parts
      | _ => parts
      end in
    match parts with
    | [symbol; direction; target_s] =>
        if negb (str_in direction ["ABOVE"; "BELOW"]) then None
        else
          match PyFloat.of_string target_s with
          | None => None
          | Some target =>
              if has_key COIN_IDS symbol then Some (symbol, direction, target)
              else if str_in symbol FX_PAIRS then
                Some (symbol, direction, target)
              else None
          end
    | _ => None
    end.

(** The call [get_symbol_price(symbol)] and its answer are logged as one
    [Fetch] event. *)
Definition get_symbol_price (E : env) (symbol : string)
  : io (option float) :=
  fun w =>
    let sym := PyStr.upper symbol in
    let answer :=
      match COIN_IDS !! sym with
      | Some coin_id => get_crypto_price E (log w) coin_id "usd"
      | None =>
          if String.eqb sym "USDUAH" then get_nbu_rate E (log w) "USD"
          else if String.eqb sym "EURUAH" then get_nbu_rate E (log w) "EUR"
          else Ret None
      end in
    ({| disk := disk w; log := log w ++ [Fetch symbol answer] |}, answer).

Definition add_alert (E : env) (user : Z) (sym dir : string) (tgt : float)
  : io unit :=
  do items <- load_alerts;
  let items :=
    (items ++ [ {| user_id := user; symbol := PyStr.upper sym;
                   direction := PyStr.upper dir; target := tgt;
                   active := true; created_at := utcnow E |} ])%list in
  save_alerts E items.

Definition owned_by (user : Z) (a : alert) : bool := (user_id a =? user)%Z.

Definition list_alerts (user : Z) : io (list alert) :=
  do items <- load_alerts;
  ret (List.filter (owned_by user) items).

(** [[i for i, a in enumerate(items) if ...]], counting from [i]. *)
Fixpoint user_items_from (i : nat) (user : Z) (items : list alert)
  : list nat :=
  match items with
  | [] => []
  | a :: rest =>
      if owned_by user a then i :: user_items_from (S i) user rest
      else user_items_from (S i) user rest
  end.

Definition user_items : Z -> list alert -> list nat := user_items_from 0.

Definition deactivate_alert (E : env) (user : Z) (idx : Z) : io bool :=
  do items <- load_alerts;
  let user_items := user_items user items in
  if (idx <? 0)%Z || (Z.of_nat (length user_items) <=? idx)%Z then ret false
  else
    match user_items !! Z.to_nat idx with
    | None => raise
    | Some real_i =>
        let items := alter set_inactive real_i items in
        do _ <- save_alerts E items;
        ret true
    end.


(** ** The background checker *)

Abbreviation price_table := (gmap string (option float)).

(** [sorted({a.get("symbol") for a in items if a.get("active")})] *)
Definition active_symbols (items : list alert) : list string :=
  merge_sort String.le (remove_dups (symbol <$> List.filter active items)).

(** The first [for] loop: one guarded fetch for each non-empty symbol. *)
Fixpoint fetch_prices (E : env) (symbols : list string) (prices : price_table)
  : io price_table :=
  match symbols with
  | [] => ret prices
  | sym :: rest =>
      if negb (PyStr.truthy sym) then fetch_prices E rest prices
      else
        do p <- try_except (get_symbol_price E sym) (ret None);
        fetch_prices E rest (<[sym := p]> prices)
  end.

(** [prices.get(sym)]: [None] for a missing key and for a stored [None]. *)
Definition price_get (prices : price_table) (sym : string) : option float :=
  match prices !! sym with
  | Some p => p
  | None => None
  end.

Definition hit (dir : string) (cur tgt : float) : bool :=
  String.eqb dir "ABOVE" && PyFloat.ge cur tgt
  || String.eqb dir "BELOW" && PyFloat.le cur tgt.

(** [await bot.send_message(...)] for the alert at position [i]: logged,
    and raising when the channel refuses the message. *)
Definition bot_send_message (E : env) (i : nat) (n : notification)
  : io unit :=
  fun w =>
    let ok := send_message E (log w) n in
    ({| disk := disk w; log := log w ++ [Send i n ok] |},
     if ok then Ret tt else Raise).

(** The body of the second [for] loop on the alert [a] at position [i]:
    the alert as the body leaves it, and whether the body set [changed]. *)
Definition check_alert (E : env) (prices : price_table) (i : nat) (a : alert)
  : io (alert * bool) :=
  if negb (active a) then ret (a, false)
  else
    let user := user_id a in
    let sym := PyStr.upper (symbol a) in
    let dir := PyStr.upper (direction a) in
    let tgt := target a in
    match price_get prices sym with
    | None => ret (a, false)
    | Some cur =>
        if hit dir cur tgt then
          let a' := set_inactive a in
          let lang := get_lang E user in
          do _ <- bot_send_message E i
                {| n_user := user; n_lang := lang; n_symbol := sym;
                   n_direction := PyStr.lower dir; n_target := tgt;
                   n_price := cur |};
          ret (a', true)
        else ret (a, false)
    end.

(** The second [for] loop over the alerts from position [i] on: the list
    as mutated, and [changed]. *)
Fixpoint check_alerts (E : env) (prices : price_table) (i : nat)
    (items : list alert) (changed : bool) : io (list alert * bool) :=
  match items with
  | [] => ret ([], changed)
  | a :: rest =>
      do '(a', c) <- check_alert E prices i a;
      do '(rest', changed') <-
        check_alerts E prices (S i) rest (changed || c);
      ret (a' :: rest', changed')
  end.

(** One iteration of [while True], without the sleeps. *)
Definition alerts_checker_cycle (E : env) : io unit :=
  try_except
    (do items <- load_alerts;
     let symbols := active_symbols items in
     do prices <- fetch_prices E symbols ∅;
     do '(items, changed) <- check_alerts E prices 0 items false;
     if changed then save_alerts E items else ret tt)
    (ret tt).

(** Running one operation on a store, from an empty log. *)
Definition run {A} (m : io A) (f : file_state)
  : file_state * list event * outcome A :=
  let '(w, r) := m {| disk := f; log := [] |} in (disk w, log w, r).

(** ** Notions used in the statements *)

(** The list of alerts that [load_alerts] reads from a file. *)
Definition stored_alerts (f : file_state) : list alert :=
  match f with
  | Holds (JList items) => items
  | _ => []
  end.

Definition holds_list (f : file_state) : bool :=
  match f with
  | Holds (JList _) => true
  | _ => false
  end.

(** The price that the second loop finds for an alert. *)
Definition price_for (prices : price_table) (a : alert) : option float :=
  price_get prices (PyStr.upper (symbol a)).

(** The condition under which the loop body reaches [send_message]. *)
Definition fires (prices : price_table) (a : alert) : bool :=
  active a &&
  match price_for prices a with
  | Some cur => hit (PyStr.upper (direction a)) cur (target a)
  | None => false
  end.

(** The message built for an alert at price [cur]. *)
Definition notice (E : env) (a : alert) (cur : float) : notification :=
  {| n_user := user_id a; n_lang := get_lang E (user_id a);
     n_symbol := PyStr.upper (symbol a);
     n_direction := PyStr.lower (PyStr.upper (direction a));
     n_target := target a; n_price := cur |}.

(** An answer of [get_symbol_price] as the first loop stores it. *)
Definition stored_price (o : outcome (option float)) : option float :=
  match o with
  | Ret p => p
  | Raise => None
  end.

Definition is_fetch (e : event) : bool :=
  match e with Fetch _ _ => true | _ => false end.
Definition is_send (e : event) : bool :=
  match e with Send _ _ _ => true | _ => false end.
Definition is_write (e : event) : bool :=
  match e with Write _ _ => true | _ => false end.

(** The symbols fetched in a log, in order. *)
Definition fetched (l : list event) : list string :=
  omap (fun e => match e with Fetch s _ => Some s | _ => None end) l.

(** The number of fetches of [s] in a log. *)
Definition fetch_count (s : string) (l : list event) : nat :=
  length (List.filter (String.eqb s) (fetched l)).

(** The alert at position [i] was fired: a message about it was handed
    to the channel. *)
Definition fired_in (l : list event) (i : nat) : Prop :=
  ∃ n ok, Send i n ok ∈ l.

(** State, log and result of one checker cycle run on a store. *)
Definition cycle (E : env) (f : file_state)
  : file_state * list event * outcome unit :=
  run (alerts_checker_cycle E) f.

Definition cycle_store (E : env) (f : file_state) : file_state :=
  (cycle E f).1.1.
Definition cycle_log (E : env) (f : file_state) : list event :=
  (cycle E f).1.2.

(** ** Sample worlds *)

Module Sample.

(** 65000.0, 64000.0 and 65500.0 *)
Definition f65000 : float := S754_finite false 8933531975680000 (-37).
Definition f64000 : float := S754_finite false 8796093022208000 (-37).
Definition f65500 : float := S754_finite false 9002251452416000 (-37).

(** Every upstream answers [price]; the channel and the disk work. *)
Definition calm (price : float) : env :=
  {| get_crypto_price := fun _ _ _ => Ret (Some price);
     get_nbu_rate := fun _ _ => Ret (Some price);
     get_lang := fun _ => "en";
     send_message := fun _ _ => true;
     write_text := fun _ _ => true;
     utcnow := "2024-05-01T10:00:00" |}.

(** As [calm], with an [alerts.json] that cannot be opened for writing. *)
Definition read_only (price : float) : env :=
  {| get_crypto_price := fun _ _ _ => Ret (Some price);
     get_nbu_rate := fun _ _ => Ret (Some price);
     get_lang := fun _ => "en";
     send_message := fun _ _ => true;
     write_text := fun _ _ => false;
     utcnow := "2024-05-01T10:00:00" |}.

(** As [calm], with a channel that refuses the messages to [user]. *)
Definition blocked_by (user : Z) (price : float) : env :=
  {| get_crypto_price := fun _ _ _ => Ret (Some price);
     get_nbu_rate := fun _ _ => Ret (Some price);
     get_lang := fun _ => "en";
     send_message := fun _ n => negb (n_user n =? user)%Z;
     write_text := fun _ _ => true;
     utcnow := "2024-05-01T10:00:00" |}.

(** As [calm], with a crypto upstream that is down. *)
Definition crypto_down (price : float) : env :=
  {| get_crypto_price := fun _ _ _ => Raise;
     get_nbu_rate := fun _ _ => Ret (Some price);
     get_lang := fun _ => "en";
     send_message := fun _ _ => true;
     write_text := fun _ _ => true;
     utcnow := "2024-05-01T10:00:00" |}.

Definition btc_above (user : Z) (tgt : float) (on : bool) : alert :=
  {| user_id := user; symbol := "BTC"; direction := "ABOVE";
     target := tgt; active := on; created_at := "2024-05-01T09:00:00" |}.

Definition usduah_below (user : Z) (tgt : float) (on : bool) : alert :=
  {| user_id := user; symbol := "USDUAH"; direction := "BELOW";
     target := tgt; active := on; created_at := "2024-05-01T09:30:00" |}.

End Sample.

(** ** The loops as relations *)

(** The condition of the checker as section 4.3 words it, on the
    upper-cased direction that the loop body compares. *)
Definition crossing (a : alert) (cur : float) : Prop :=
  PyStr.upper (direction a) = "ABOVE" /\ PyFloat.ge cur (target a) = true
  \/ PyStr.upper (direction a) = "BELOW" /\ PyFloat.le cur (target a) = true.

(** What the alert at one position becomes in a loop that is not
    interrupted. *)
Definition checked_alert (prices : price_table) (a : alert) : alert :=
  if fires prices a then set_inactive a else a.

(** [checked E prices i items l evs res]: started at position [i] after
    the events [l], the second loop over [items] adds the events [evs]
    and ends with the list [items'] when [res = Some items'], or is left
    by an exception when [res = None]. *)
Inductive checked (E : env) (prices : price_table)
  : nat -> list alert -> list event -> list event -> option (list alert)
    -> Prop :=
  | checked_nil i l :
      checked E prices i [] l [] (Some [])
  | checked_skip i a rest l evs res :
      fires prices a = false ->
      checked E prices (S i) rest l evs res ->
      checked E prices i (a :: rest) l evs (cons a <$> res)
  | checked_sent i a cur rest l evs res :
      fires prices a = true ->
      price_for prices a = Some cur ->
      send_message E l (notice E a cur) = true ->
      checked E prices (S i) rest (l ++ [Send i (notice E a cur) true])
        evs res ->
      checked E prices i (a :: rest) l
        (Send i (notice E a cur) true :: evs) (cons (set_inactive a) <$> res)
  | checked_failed i a cur rest l :
      fires prices a = true ->
      price_for prices a = Some cur ->
      send_message E l (notice E a cur) = false ->
      checked E prices i (a :: rest) l [Send i (notice E a cur) false] None.

(** [fetching E syms l evs prices prices']: after the events [l], the
    first loop over [syms] adds the events [evs] and turns the table
    [prices] into [prices']. *)
Inductive fetching (E : env)
  : list string -> list event -> list event -> price_table -> price_table
    -> Prop :=
  | fetching_nil l prices :
      fetching E [] l [] prices prices
  | fetching_skip sym rest l evs prices prices' :
      PyStr.truthy sym = false ->
      fetching E rest l evs prices prices' ->
      fetching E (sym :: rest) l evs prices prices'
  | fetching_call sym o rest l evs prices prices' :
      PyStr.truthy sym = true ->
      fetching E rest (l ++ [Fetch sym o]) evs
        (<[sym := stored_price o]> prices) prices' ->
      fetching E (sym :: rest) l (Fetch sym o :: evs) prices prices'.

(** ** Statements about logs and runs *)



(** Every alert fired in a cycle is inactive in the store after it. *)
Definition fired_are_persisted (E : env) (f : file_state) : Prop :=
  ∀ i, fired_in (cycle_log E f) i ->
       ∃ a', stored_alerts (cycle_store E f) !! i = Some a' /\
             active a' = false.






(** -5.0 *)
Definition Sample_minus5 : float := S754_finite true 5629499534213120 (-50).

(** * The rest of [bot.py]

    The parts below embed the functions that the alert engine leaves
    out: the preference files and the disclaimer gate, the seller list
    and its dashboard, the HTTP helper, the price source, the converter
    and the advisor cache. *)

(** ** JSON values and JSON files *)

Module Json.

(** What [json.loads] returns.  A [VDict] holds the items of the
    dictionary in insertion order, one per key. *)
#[warnings="-register-all"]
Inductive jv :=
  | VNull
  | VBool (b : bool)
  | VInt (n : Z)
  | VFloat (x : float)
  | VStr (s : string)
  | VList (items : list jv)
  | VDict (fields : list (string * jv)).

(** [bool(v)] *)
Definition truthy (v : jv) : bool :=
  match v with
  | VNull => false
  | VBool b => b
  | VInt n => negb (n =? 0)%Z
  | VFloat x => negb (SFeqb x PyFloat.zero)
  | VStr s => PyStr.truthy s
  | VList items => match items with [] => false | _ => true end
  | VDict fields => match fields with [] => false | _ => true end
  end.

(** [v == s] for a string [s] *)
Definition eq_str (v : jv) (s : string) : bool :=
  match v with
  | VStr t => String.eqb t s
  | _ => false
  end.

(** [d.get(key)] on the items of a dictionary *)
Fixpoint dict_get {V} (d : list (string * V)) (key : string) : option V :=
  match d with
  | [] => None
  | (k, v) :: rest => if String.eqb k key then Some v else dict_get rest key
  end.

(** [d[key] = v]: the value of an existing key is replaced where it
    stands, a new key goes to the end. *)
Fixpoint dict_set {V} (d : list (string * V)) (key : string) (v : V)
  : list (string * V) :=
  match d with
  | [] => [(key, v)]
  | (k, w) :: rest =>
      if String.eqb k key then (k, v) :: rest
      else (k, w) :: dict_set rest key v
  end.

(** A file that is read with [json.loads]. *)
Inductive jfile :=
  | FAbsent
  | FUnreadable
  | FMalformed (text : string)
  | FHolds (doc : jv).

(** [json.loads(path.read_text(encoding="utf-8"))] *)
Definition read (f : jfile) : outcome jv :=
  match f with
  | FHolds d => Ret d
  | _ => Raise
  end.

(** [_safe_read_json(path, default)] *)
Definition safe_read (f : jfile) (default : jv) : jv :=
  match f with
  | FAbsent => default
  | _ => match read f with Ret d => d | Raise => default end
  end.

(** [path.write_text(json.dumps(data, ...))]: [ok] tells whether the
    write goes through; a write that fails leaves the file as it was. *)
Definition write (ok : bool) (f : jfile) (data : jv) : outcome jfile :=
  if ok then Ret (FHolds data) else Raise.

(** [_safe_write_json(path, data)] *)
Definition safe_write (ok : bool) (f : jfile) (data : jv) : jfile :=
  match write ok f data with
  | Ret f' => f'
  | Raise => f
  end.

End Json.

(** ** Preferences: accepted disclaimer and language *)

Module Prefs.
Import Json.

(** [data/accepted.json] and [data/lang.json] *)
Record files := Files { accepted_file : jfile; lang_file : jfile }.

(** [str(user_id)] *)
Definition key_of (user : Z) : string := pretty user.

(** [data if isinstance(data, dict) else {}] after [_safe_read_json(f, {})] *)
Definition load_dict (f : jfile) : list (string * jv) :=
  match safe_read f (VDict []) with
  | VDict m => m
  | _ => []
  end.

Definition load_accepted (fs : files) : list (string * jv) :=
  load_dict (accepted_file fs).

Definition save_accepted (ok : bool) (fs : files) (m : list (string * jv))
  : files :=
  {| accepted_file := safe_write ok (accepted_file fs) (VDict m);
     lang_file := lang_file fs |}.

Definition is_accepted (fs : files) (user : Z) : bool :=
  truthy (default (VBool false) (dict_get (load_accepted fs) (key_of user))).

Definition set_accepted (ok : bool) (fs : files) (user : Z) (val : bool)
  : files :=
  let m := load_accepted fs in
  let m := dict_set m (key_of user) (VBool val) in
  save_accepted ok fs m.

Definition load_lang_map (fs : files) : list (string * jv) :=
  load_dict (lang_file fs).

Definition save_lang_map (ok : bool) (fs : files) (m : list (string * jv))
  : files :=
  {| accepted_file := accepted_file fs;
     lang_file := safe_write ok (lang_file fs) (VDict m) |}.

Definition get_lang (fs : files) (user : Z) : string :=
  let m := load_lang_map fs in
  let lang := default (VStr "ua") (dict_get m (key_of user)) in
  if eq_str lang "en" then "en" else "ua".

Definition set_lang (ok : bool) (fs : files) (user : Z) (lang : string)
  : files :=
  let m := load_lang_map fs in
  let m := dict_set m (key_of user)
             (VStr (if String.eqb lang "en" then "en" else "ua")) in
  save_lang_map ok fs m.

(** [i18n(lang, ua, en)] *)
Definition i18n {A} (lang : string) (ua en : A) : A :=
  if String.eqb lang "en" then en else ua.

End Prefs.

(** ** The disclaimer gate *)

Module Gate.
Import Json Prefs.

(** The messages of the handlers below, by the pair of texts given to
    [i18n] and the language that selects one of them. *)
Inductive reply :=
  | Disclaimer (lang : string)
  | ChooseLanguage (lang : string)
  | Menu (lang : string)
  | Accepted (lang : string)
  | LanguageChanged (lang : string)
  | Help (lang : string).

(** A message handler, as far as the preference files and its answers
    go. *)
Definition handler : Type := files -> Z -> files * list reply.

(** The [wrapper] that [require_accept(func)] returns. *)
Definition require_accept (func : handler) : handler :=
  fun fs user =>
    let lang := get_lang fs user in
    if negb (is_accepted fs user) then
      (fs, [Disclaimer lang; ChooseLanguage lang])
    else func fs user.

Definition cmd_start : handler :=
  fun fs user =>
    let lang := get_lang fs user in
    if negb (is_accepted fs user) then
      (fs, [Disclaimer lang; ChooseLanguage lang])
    else (fs, [Menu lang]).

Definition cmd_help : handler :=
  require_accept (fun fs user => (fs, [Help (get_lang fs user)])).

(** [disclaimer_accept]; [ok] tells whether the write goes through. *)
Definition disclaimer_accept (ok : bool) : handler :=
  fun fs user =>
    let fs := set_accepted ok fs user true in
    let lang := get_lang fs user in
    (fs, [Accepted lang]).

(** The texts of the two buttons of [LANG_MENU] *)
Definition LANG_UA : string := "Українська 🇺🇦".
Definition LANG_EN : string := "English 🇬🇧".

(** [needle in text] *)
Fixpoint contains (needle text : string) : bool :=
  String.prefix needle text
  || match text with
     | EmptyString => false
     | String _ rest => contains needle rest
     end.

(** [lang_pick] on the text of the message *)
Definition lang_pick (ok : bool) (text : string) : handler :=
  fun fs user =>
    let fs :=
      if contains "English" text then set_lang ok fs user "en"
      else set_lang ok fs user "ua" in
    let lang := get_lang fs user in
    (fs, [LanguageChanged lang]).

End Gate.

(** ** P2P sellers and the dashboard *)

Module P2P.
Import Json.

Record P2PSeller := Seller {
  name : string;
  currency : string;
  rate : string;
  limit : string;
  contact : string
}.

(** The rows of [p2p.json]: a dictionary with string values, as
    [save_p2p_sellers] writes them, or anything that is not a
    dictionary. *)
Inductive p2p_row :=
  | RowDict (fields : list (string * string))
  | RowOther.

Inductive p2p_doc :=
  | DocList (rows : list p2p_row)
  | DocOther.

Inductive p2p_file :=
  | PAbsent
  | PUnreadable
  | PMalformed (text : string)
  | PHolds (doc : p2p_doc).

(** [P2PSeller(name=str(row.get("name", "")), ...)] *)
Definition seller_of_fields (fields : list (string * string)) : P2PSeller :=
  {| name := default "" (dict_get fields "name");
     currency := default "" (dict_get fields "currency");
     rate := default "" (dict_get fields "rate");
     limit := default "" (dict_get fields "limit");
     contact := default "" (dict_get fields "contact") |}.

Definition load_p2p_sellers (f : p2p_file) : list P2PSeller :=
  match f with
  | PAbsent => []
  | PHolds (DocList rows) =>
      omap (fun row => match row with
                       | RowDict fields => Some (seller_of_fields fields)
                       | RowOther => None
                       end) rows
  | PHolds DocOther => []
  | PUnreadable | PMalformed _ => []
  end.

(** [asdict(x)] *)
Definition asdict (x : P2PSeller) : list (string * string) :=
  [("name", name x); ("currency", currency x); ("rate", rate x);
   ("limit", limit x); ("contact", contact x)].

(** [save_p2p_sellers(items)]: not guarded, a failed write raises. *)
Definition save_p2p_sellers (ok : bool) (items : list P2PSeller)
  : outcome p2p_file :=
  if ok then Ret (PHolds (DocList (RowDict ∘ asdict <$> items))) else Raise.


(** The session cookie and the seller file. *)
Record server := Server { logged_in : bool; sellers_file : p2p_file }.

Inductive response :=
  | Redirect (endpoint : string)
  | Page (title : string)
  | ServerError.


(** [_is_logged_in()] *)
Definition _is_logged_in (st : server) : bool := logged_in st.

(** [P2PSeller(name=request.form.get("name", ""), ...)] *)
Definition seller_of_form (form : list (string * string)) : P2PSeller :=
  seller_of_fields form.



Definition dash_p2p_new_post (ok : bool) (form : list (string * string))
    (st : server) : server * response :=
  if negb (_is_logged_in st) then (st, Redirect "dash_login")
  else
    let sellers := load_p2p_sellers (sellers_file st) in
    let sellers := sellers ++ [seller_of_form form] in
    match save_p2p_sellers ok sellers with
    | Ret f => ({| logged_in := logged_in st; sellers_file := f |},
                Redirect "dash_p2p")
    | Raise => (st, ServerError)
    end.


Definition dash_p2p_edit_post (ok : bool) (idx : Z)
    (form : list (string * string)) (st : server) : server * response :=
  if negb (_is_logged_in st) then (st, Redirect "dash_login")
  else
    let sellers := load_p2p_sellers (sellers_file st) in
    if (idx <? 0)%Z || (Z.of_nat (length sellers) <=? idx)%Z
    then (st, Redirect "dash_p2p")
    else
      let sellers := <[Z.to_nat idx := seller_of_form form]> sellers in
      match save_p2p_sellers ok sellers with
      | Ret f => ({| logged_in := logged_in st; sellers_file := f |},
                  Redirect "dash_p2p")
      | Raise => (st, ServerError)
      end.

Definition dash_p2p_delete (ok : bool) (idx : Z) (st : server)
  : server * response :=
  if negb (_is_logged_in st) then (st, Redirect "dash_login")
  else
    let sellers := load_p2p_sellers (sellers_file st) in
    if (0 <=? idx)%Z && (idx <? Z.of_nat (length sellers))%Z then
      let sellers := delete (Z.to_nat idx) sellers in
      match save_p2p_sellers ok sellers with
      | Ret f => ({| logged_in := logged_in st; sellers_file := f |},
                  Redirect "dash_p2p")
      | Raise => (st, ServerError)
      end
    else (st, Redirect "dash_p2p").





End P2P.

(** ** The HTTP helper *)

Module Http.
Import Json.

(** What [await r.json()] does. *)
Inductive body :=
  | BodyJson (j : jv)
  | BodyTimeout             (* raises [asyncio.TimeoutError] *)
  | BodyError.              (* raises another exception *)

(** What one [session.get(...)] does. *)
Inductive attempt :=
  | ConnTimeout             (* raises [asyncio.TimeoutError] *)
  | ConnError               (* raises another exception *)
  | Response (status : Z) (b : body).

Inductive failure :=
  | TimeoutError
  | HttpError (status : Z)  (* from [r.raise_for_status()] *)
  | OtherError.

(** How a call of [fetch_json] ends: with the value of [r.json()], by
    running out of the [for] loop, or with an exception. *)
Inductive fetched :=
  | Got (j : jv)
  | Nothing
  | Failed (e : failure).

(** The [for] loop over the attempt numbers left; [server n] is what the
    [n]-th request does.  Returns the number of requests sent too. *)
Fixpoint fetch_attempts (server : nat -> attempt) (attempts : list nat)
  : nat * fetched :=
  match attempts with
  | [] => (O, Nothing)
  | attempt :: rest =>
      let continue :=
        let '(n, r) := fetch_attempts server rest in (S n, r) in
      match server attempt with
      | Response status b =>
          if (status =? 429)%Z && (attempt =? 0)%nat then continue
          else if (400 <=? status)%Z then (1%nat, Failed (HttpError status))
          else
            match b with
            | BodyJson j => (1%nat, Got j)
            | BodyTimeout =>
                if (attempt =? 0)%nat then continue
                else (1%nat, Failed TimeoutError)
            | BodyError => (1%nat, Failed OtherError)
            end
      | ConnTimeout =>
          if (attempt =? 0)%nat then continue
          else (1%nat, Failed TimeoutError)
      | ConnError => (1%nat, Failed OtherError)
      end
  end.

(** [fetch_json(session, url, params)]: [for attempt in range(2)] *)
Definition fetch_json (server : nat -> attempt) : nat * fetched :=
  fetch_attempts server [0%nat; 1%nat].

(** How a request ends when it is not followed by another one. *)
Definition final (a : attempt) : fetched :=
  match a with
  | ConnTimeout => Failed TimeoutError
  | ConnError => Failed OtherError
  | Response status b =>
      if (400 <=? status)%Z then Failed (HttpError status)
      else
        match b with
        | BodyJson j => Got j
        | BodyTimeout => Failed TimeoutError
        | BodyError => Failed OtherError
        end
  end.

(** The first request asks for a second one: status 429 or a timeout. *)
Definition asks_again (a : attempt) : bool :=
  match a with
  | ConnTimeout => true
  | ConnError => false
  | Response status b =>
      (status =? 429)%Z
      || negb (400 <=? status)%Z
         && match b with BodyTimeout => true | _ => false end
  end.

End Http.

(** ** The crypto price source *)

Module Source.
Import Json Http.

(** [float(n)] for an [int]: [OverflowError] when [n] is too large. *)
Definition float_of_int (n : Z) : outcome float :=
  match binary_normalize PyFloat.prec PyFloat.emax n 0 false with
  | S754_infinity _ => Raise
  | x => Ret x
  end.

(** [float(v)] *)
Definition float_of (v : jv) : outcome float :=
  match v with
  | VFloat x => Ret x
  | VInt n => float_of_int n
  | VBool b => float_of_int (if b then 1 else 0)
  | VStr s =>
      match PyFloat.of_string s with
      | Some x => Ret x
      | None => Raise
      end
  | VNull | VList _ | VDict _ => Raise
  end.

(** [v[key]] for a string key: [KeyError] or [TypeError] is [Raise]. *)
Definition subscript (v : jv) (key : string) : outcome jv :=
  match v with
  | VDict fields =>
      match dict_get fields key with
      | Some x => Ret x
      | None => Raise
      end
  | _ => Raise
  end.

(** [float(data[coin_id][vs])] *)
Definition price_in (data : jv) (coin_id vs : string) : outcome float :=
  match subscript data coin_id with
  | Ret by_coin =>
      match subscript by_coin vs with
      | Ret p => float_of p
      | Raise => Raise
      end
  | Raise => Raise
  end.

(** [get_crypto_price(coin_id, vs)] against a server *)
Definition get_crypto_price (server : nat -> attempt) (coin_id vs : string)
  : outcome (option float) :=
  let vs := PyStr.lower vs in
  match (fetch_json server).2 with
  | Failed _ => Raise
  | Got data =>
      match price_in data coin_id vs with
      | Ret x => Ret (Some x)
      | Raise => Ret None
      end
  | Nothing =>
      match price_in VNull coin_id vs with
      | Ret x => Ret (Some x)
      | Raise => Ret None
      end
  end.

End Source.

(** ** The converter *)

Module Convert.

(** The two price sources as [convert] calls them. *)
Record upstream := Upstream {
  nbu_rate : string -> outcome (option float);           (* [get_nbu_rate(code)] *)
  crypto_price : string -> string -> outcome (option float)
                                             (* [get_crypto_price(coin_id, vs)] *)
}.

Inductive call :=
  | AskNbu (code : string)
  | AskCrypto (coin_id vs : string).

Inductive error :=
  | ValueError
  | RuntimeError (msg : string)
  | ZeroDivisionError
  | UpstreamError.          (* an exception of the price source *)

(** The second component of the result: which text is built, and from
    which values. *)
Inductive info :=
  | Identity
  | Nbu (code : string) (rate : float)
  | NbuCross (src dst : string)
  | CoinGecko (src dst : string) (price : float)
  | CoinGeckoInverted (dst src : string) (price : float)
  | CoinGeckoThenNbu
  | NbuThenCoinGecko.

Inductive result :=
  | Done (amount : float) (i : info)
  | Failed (e : error).

(** [_norm_ccy(s)] *)
Definition _norm_ccy (s : string) : string := PyStr.upper (PyStr.strip s).

(** [a * b] and [a / b] on floats *)
Definition mul (a b : float) : float := SFmul PyFloat.prec PyFloat.emax a b.

Definition is_zero (x : float) : bool := SFeqb x PyFloat.zero.

Definition div (a b : float) (k : float -> result) : result :=
  if is_zero b then Failed ZeroDivisionError
  else k (SFdiv PyFloat.prec PyFloat.emax a b).

(** [not rate] for an optional float: [None] and zero are false values. *)
Definition missing (rate : option float) : bool :=
  match rate with
  | None => true
  | Some x => is_zero x
  end.

(** [await get_nbu_rate(code)], then the rest of the function. *)
Definition ask_nbu (U : upstream) (code : string)
    (k : option float -> list call * result) : list call * result :=
  match nbu_rate U code with
  | Raise => ([AskNbu code], Failed UpstreamError)
  | Ret r => let '(t, res) := k r in (AskNbu code :: t, res)
  end.

(** [await get_crypto_price(coin_id, vs)], then the rest. *)
Definition ask_crypto (U : upstream) (coin_id vs : string)
    (k : option float -> list call * result) : list call * result :=
  match crypto_price U coin_id vs with
  | Raise => ([AskCrypto coin_id vs], Failed UpstreamError)
  | Ret r => let '(t, res) := k r in (AskCrypto coin_id vs :: t, res)
  end.

Definition fiat (s : string) : bool := str_in s ["USD"; "EUR"].

(** [COIN_IDS[s]] after the test [s in COIN_IDS] *)
Definition coin_id_of (s : string) : string := default "" (COIN_IDS !! s).

(** [convert(amount, src, dst)]: the calls made to the price sources, in
    order, and the result. *)
Definition convert (U : upstream) (amount : float) (src dst : string)
  : list call * result :=
  let src := _norm_ccy src in
  let dst := _norm_ccy dst in
  if SFltb amount PyFloat.zero then ([], Failed ValueError)
  else if String.eqb src dst then ([], Done amount Identity)
  else if fiat src && String.eqb dst "UAH" then
    ask_nbu U src (fun rate =>
      if missing rate then ([], Failed (RuntimeError "NBU rate missing"))
      else
        let r := default PyFloat.zero rate in
        ([], Done (mul amount r) (Nbu src r)))
  else if String.eqb src "UAH" && fiat dst then
    ask_nbu U dst (fun rate =>
      if missing rate then ([], Failed (RuntimeError "NBU rate missing"))
      else
        let r := default PyFloat.zero rate in
        ([], div amount r (fun x => Done x (Nbu dst r))))
  else if fiat src && fiat dst && negb (String.eqb src dst) then
    ask_nbu U src (fun r_src =>
    ask_nbu U dst (fun r_dst =>
      if missing r_src || missing r_dst
      then ([], Failed (RuntimeError "NBU cross missing"))
      else
        let rs := default PyFloat.zero r_src in
        let rd := default PyFloat.zero r_dst in
        ([], div (mul amount rs) rd (fun x => Done x (NbuCross src dst)))))
  else if has_key COIN_IDS src && fiat dst then
    ask_crypto U (coin_id_of src) (PyStr.lower dst) (fun price =>
      match price with
      | None => ([], Failed (RuntimeError "CG price missing"))
      | Some p => ([], Done (mul amount p) (CoinGecko src dst p))
      end)
  else if has_key COIN_IDS dst && fiat src then
    ask_crypto U (coin_id_of dst) (PyStr.lower src) (fun price =>
      match price with
      | None => ([], Failed (RuntimeError "CG price missing"))
      | Some p =>
          if is_zero p then ([], Failed (RuntimeError "CG price missing"))
          else ([], div amount p (fun x => Done x (CoinGeckoInverted dst src p)))
      end)
  else if has_key COIN_IDS src && String.eqb dst "UAH" then
    ask_crypto U (coin_id_of src) "usd" (fun price_usd =>
    ask_nbu U "USD" (fun usd_uah =>
      match price_usd, usd_uah with
      | Some p, Some u => ([], Done (mul (mul amount p) u) CoinGeckoThenNbu)
      | _, _ => ([], Failed (RuntimeError "CG/NBU missing"))
      end))
  else if String.eqb src "UAH" && has_key COIN_IDS dst then
    ask_crypto U (coin_id_of dst) "usd" (fun price_usd =>
    ask_nbu U "USD" (fun usd_uah =>
      match price_usd, usd_uah with
      | Some p, Some u =>
          if is_zero p then ([], Failed (RuntimeError "CG/NBU missing"))
          else
            ([], div amount u (fun usd_amt =>
                   div usd_amt p (fun x => Done x NbuThenCoinGecko)))
      | _, _ => ([], Failed (RuntimeError "CG/NBU missing"))
      end))
  else ([], Failed (RuntimeError "pair not supported")).

(** The pairs for which [convert] has a branch, on normalized codes. *)
Definition supported (src dst : string) : bool :=
  String.eqb src dst
  || fiat src && String.eqb dst "UAH"
  || String.eqb src "UAH" && fiat dst
  || fiat src && fiat dst
  || has_key COIN_IDS src && fiat dst
  || has_key COIN_IDS dst && fiat src
  || has_key COIN_IDS src && String.eqb dst "UAH"
  || String.eqb src "UAH" && has_key COIN_IDS dst.

(** The answer of the price sources to a call. *)
Definition answer (U : upstream) (c : call) : outcome (option float) :=
  match c with
  | AskNbu code => nbu_rate U code
  | AskCrypto coin_id vs => crypto_price U coin_id vs
  end.

End Convert.

(** ** The advisor cache *)

Module Advisor.

(** One entry of [_advisor_cache]: [{"ts": ..., "text": ...}] *)
Record entry := Entry { ts : float; text : string }.

(** [_advisor_cache]: the entries under ["ua"] and ["en"] *)
Record cache := Cache { ua : entry; en : entry }.

(** The cache when the module is loaded. *)
Definition empty : cache :=
  {| ua := {| ts := PyFloat.zero; text := "" |};
     en := {| ts := PyFloat.zero; text := "" |} |}.

(** 60.0 and 86400.0 *)
Definition ADVISOR_CACHE_TTL_SEC : float :=
  S754_finite false 8444249301319680 (-47).
Definition ADVISOR_CACHE_MAX_STALE_SEC : float :=
  S754_finite false 5937362789990400 (-36).

Definition get_entry (c : cache) (key : string) : entry :=
  if String.eqb key "en" then en c else ua c.

Definition set_entry (c : cache) (key : string) (e : entry) : cache :=
  if String.eqb key "en" then {| ua := ua c; en := e |}
  else {| ua := e; en := en c |}.

(** [now - cached_ts] *)
Definition age (now cached_ts : float) : float :=
  SFsub PyFloat.prec PyFloat.emax now cached_ts.

(** The note added to a stale text. *)
Definition note (key : string) : string :=
  if String.eqb key "en"
  then String "010" (String "010"
         "ℹ️ <i>Showing cached data (may be outdated).</i>")
  else String "010" (String "010"
         "ℹ️ <i>Показую кеш (може бути застарілим).</i>").

(** What a call did: the cache it leaves, whether it ran
    [build_advisor_text], and what it returns. *)
Record served := Served {
  cache_after : cache;
  built : bool;
  answer : outcome string
}.

(** [get_advisor_text_cached(lang)] at the time [now]; [build] is what
    [asyncio.wait_for(build_advisor_text(lang), timeout=16)] does when it
    is run. *)
Definition get_advisor_text_cached (now : float) (build : outcome string)
    (lang : string) (c : cache) : served :=
  let key := if String.eqb lang "en" then "en" else "ua" in
  let cached_ts :=
    let t := ts (get_entry c key) in
    if SFeqb t PyFloat.zero then PyFloat.zero else t in
  let cached_text := text (get_entry c key) in
  if PyStr.truthy cached_text
     && PyFloat.le (age now cached_ts) ADVISOR_CACHE_TTL_SEC
  then {| cache_after := c; built := false; answer := Ret cached_text |}
  else
    match build with
    | Ret fresh =>
        {| cache_after := set_entry c key {| ts := now; text := fresh |};
           built := true; answer := Ret fresh |}
    | Raise =>
        if PyStr.truthy cached_text
           && PyFloat.le (age now cached_ts) ADVISOR_CACHE_MAX_STALE_SEC
        then {| cache_after := c; built := true;
                answer := Ret (cached_text ++ note key)%string |}
        else {| cache_after := c; built := true; answer := Raise |}
    end.

(** The key and the entry that a call for [lang] works on, and the age
    that the call computes for an entry. *)
Definition key_for (lang : string) : string :=
  if String.eqb lang "en" then "en" else "ua".

Definition other_key (lang : string) : string :=
  if String.eqb lang "en" then "ua" else "en".

Definition cached_age (now : float) (e : entry) : float :=
  age now (if SFeqb (ts e) PyFloat.zero then PyFloat.zero else ts e).

End Advisor.

(** ** More notions on the alert engine *)

(** The positions of the alerts that got a message in a log, in order. *)
Definition send_indices (l : list event) : list nat :=
  omap (fun e => match e with Send i _ _ => Some i | _ => None end) l.


(** ** The monad and the storage helpers *)

Lemma load_alerts_eq w : load_alerts w = (w, Ret (stored_alerts (disk w))).
Proof.
  destruct w as [f l]. unfold load_alerts, _safe_read_json, bind, try_except,
    path_exists, read_json, ret; simpl.
  destruct f as [| | t | d]; simpl; try reflexivity.
Qed.

Lemma save_alerts_eq E items w :
  save_alerts E items w =
    ({| disk := if write_text E (log w) (JList items)
                then Holds (JList items) else disk w;
        log := log w ++ [Write (JList items)
                           (write_text E (log w) (JList items))] |},
     Ret tt).
Proof.
  unfold save_alerts, _safe_write_json, try_except, write_json, ret.
  destruct (write_text E (log w) (JList items)); reflexivity.
Qed.

Lemma stored_alerts_nil f : holds_list f = false -> stored_alerts f = [].
Proof. destruct f as [| | t | d]; try reflexivity. destruct d; easy. Qed.

Lemma stored_alerts_holds f :
  holds_list f = true -> f = Holds (JList (stored_alerts f)).
Proof. destruct f as [| | t | d]; try easy. destruct d; easy. Qed.

(** ** Degraded storage *)

(** C8: when [alerts.json] is missing, unreadable, unparseable or holds a
    document that is not a list, [load_alerts] and [list_alerts] return the
    empty list without raising, and a checker cycle does nothing: no
    fetch, no message, no write, store untouched.  A write that fails
    raises inside [write_json] only: [_safe_write_json] and [save_alerts]
    return normally, leaving the file as it was. *)
Theorem degraded_store_is_empty (E : env) (user : Z) (f : file_state)
    (data : json) (items : list alert) (w : world) :
  holds_list f = false ->
  run load_alerts f = (f, [], Ret []) /\
  run (list_alerts user) f = (f, [], Ret []) /\
  cycle E f = (f, [], Ret tt) /\
  (_safe_write_json E data w).2 = Ret tt /\
  (save_alerts E items w).2 = Ret tt /\
  (write_text E (log w) data = false ->
   (write_json E data w).2 = Raise /\
   _safe_write_json E data w =
     ({| disk := disk w; log := log w ++ [Write data false] |}, Ret tt)).
Proof.
  intros Hf. apply stored_alerts_nil in Hf.
  repeat split.
  - unfold run. rewrite load_alerts_eq. simpl. by rewrite Hf.
  - unfold run, list_alerts, bind. rewrite load_alerts_eq. simpl.
    by rewrite Hf.
  - unfold cycle, run, alerts_checker_cycle, try_except, bind.
    rewrite load_alerts_eq. simpl. by rewrite Hf.
  - unfold _safe_write_json, try_except, write_json, ret.
    by destruct (write_text E (log w) data).
  - by rewrite save_alerts_eq.
  - unfold write_json. simpl. by rewrite H.
  - unfold _safe_write_json, try_except, write_json, ret. by rewrite H.
Qed.

Lemma degraded_store_is_empty_witness :
  holds_list (Malformed "[{") = false /\
  cycle (Sample.calm Sample.f65000) (Malformed "[{") =
    (Malformed "[{", [], Ret tt).
Proof.
  split; [reflexivity |].
  apply (degraded_store_is_empty (Sample.calm Sample.f65000) 42
           (Malformed "[{") JNull [] {| disk := Absent; log := [] |}).
  reflexivity.
Defined.

(** ** The two loops of the checker *)

Lemma guarded_fetch_eq E sym w :
  ∃ o, try_except (get_symbol_price E sym) (ret None) w =
         ({| disk := disk w; log := log w ++ [Fetch sym o] |},
          Ret (stored_price o)).
Proof.
  unfold try_except, get_symbol_price, ret.
  match goal with
  | |- context [Fetch sym ?x] => exists x; destruct x as [p |]
  end; reflexivity.
Qed.

Lemma fetch_prices_fetching E syms : ∀ prices w,
  ∃ evs prices',
    fetching E syms (log w) evs prices prices' /\
    fetch_prices E syms prices w =
      ({| disk := disk w; log := log w ++ evs |}, Ret prices').
Proof.
  induction syms as [| sym rest IH]; intros prices w; simpl.
  - exists [], prices. split; [constructor |].
    rewrite app_nil_r. by destruct w.
  - destruct (PyStr.truthy sym) eqn:Ht; simpl.
    + unfold bind. destruct (guarded_fetch_eq E sym w) as [o ->].
      destruct (IH (<[sym := stored_price o]> prices)
                  {| disk := disk w; log := log w ++ [Fetch sym o] |})
        as (evs & prices' & Hf & ->).
      exists (Fetch sym o :: evs), prices'. split.
      * by apply fetching_call.
      * simpl. by rewrite <- app_assoc.
    + destruct (IH prices w) as (evs & prices' & Hf & ->).
      exists evs, prices'. split; [by apply fetching_skip | done].
Qed.

Lemma check_alert_eq E prices i a w :
  check_alert E prices i a w =
    match fires prices a, price_for prices a with
    | true, Some cur =>
        ({| disk := disk w;
            log := log w ++ [Send i (notice E a cur)
                               (send_message E (log w) (notice E a cur))] |},
         if send_message E (log w) (notice E a cur)
         then Ret (set_inactive a, true) else Raise)
    | _, _ => (w, Ret (a, false))
    end.
Proof.
  unfold check_alert, fires, price_for.
  destruct (active a); simpl; [| done].
  destruct (price_get prices (PyStr.upper (symbol a))) as [cur |]; [| done].
  destruct (hit _ cur _); [| done].
  unfold bind, bot_send_message, notice, ret. simpl.
  by destruct (send_message E (log w) _).
Qed.

Lemma check_alerts_checked E prices items : ∀ i c w,
  ∃ evs res,
    checked E prices i items (log w) evs res /\
    check_alerts E prices i items c w =
      ({| disk := disk w; log := log w ++ evs |},
       match res with
       | Some items' => Ret (items', c || bool_decide (evs ≠ []))
       | None => Raise
       end).
Proof.
  induction items as [| a rest IH]; intros i c w; simpl.
  - exists [], (Some []). split; [constructor |].
    unfold ret. rewrite app_nil_r, orb_false_r. by destruct w.
  - unfold bind at 1. rewrite check_alert_eq.
    destruct (fires prices a) eqn:Hf.
    + destruct (price_for prices a) as [cur |] eqn:Hp.
      2:{ unfold fires in Hf. rewrite Hp in Hf.
          by rewrite andb_false_r in Hf. }
      destruct (send_message E (log w) (notice E a cur)) eqn:Hs.
      * destruct (IH (S i) (c || true)
                    {| disk := disk w;
                       log := log w ++ [Send i (notice E a cur) true] |})
          as (evs & res & Hc & Heq).
        exists (Send i (notice E a cur) true :: evs),
               (cons (set_inactive a) <$> res).
        split; [by eapply checked_sent |].
        unfold bind. rewrite Heq. simpl. rewrite <- app_assoc. simpl.
        destruct res as [items' |]; simpl; [| done].
        unfold ret. by rewrite orb_true_r.
      * exists [Send i (notice E a cur) false], None.
        split; [by eapply checked_failed | done].
    + destruct (IH (S i) (c || false) w) as (evs & res & Hc & Heq).
      exists evs, (cons a <$> res).
      split; [by apply checked_skip |].
      destruct (price_for prices a); unfold bind; rewrite Heq; simpl;
        rewrite orb_false_r; destruct res; done.
Qed.

Lemma cycle_cases E f :
  ∃ fev prices sev res,
    fetching E (active_symbols (stored_alerts f)) [] fev ∅ prices /\
    checked E prices 0 (stored_alerts f) fev sev res /\
    cycle E f =
      match res with
      | Some items' =>
          if bool_decide (sev ≠ []) then
            (if write_text E (fev ++ sev) (JList items')
             then Holds (JList items') else f,
             fev ++ sev ++ [Write (JList items')
                              (write_text E (fev ++ sev) (JList items'))],
             Ret tt)
          else (f, fev ++ sev, Ret tt)
      | None => (f, fev ++ sev, Ret tt)
      end.
Proof.
  unfold cycle, run, alerts_checker_cycle, try_except.
  unfold bind at 1. rewrite load_alerts_eq. simpl.
  unfold bind at 1.
  destruct (fetch_prices_fetching E (active_symbols (stored_alerts f)) ∅
              {| disk := f; log := [] |}) as (fev & prices & Hf & ->).
  simpl in *. unfold bind at 1.
  destruct (check_alerts_checked E prices (stored_alerts f) 0 false
              {| disk := f; log := fev |}) as (sev & res & Hc & ->).
  simpl in *. exists fev, prices, sev, res. repeat split; try done.
  destruct res as [items' |]; simpl; [| done].
  case_bool_decide; simpl; [| done].
  rewrite save_alerts_eq. simpl. by rewrite <- app_assoc.
Qed.

(** *** Facts about the first loop *)

Lemma fetching_fetched E syms l evs prices prices' :
  fetching E syms l evs prices prices' ->
  forallb is_fetch evs = true /\
  fetched evs = List.filter PyStr.truthy syms.
Proof.
  induction 1 as [| sym rest l evs p p' Ht _ [IH1 IH2]
                   | sym o rest l evs p p' Ht _ [IH1 IH2]]; simpl.
  - done.
  - by rewrite Ht.
  - rewrite Ht. split; [done |]. unfold fetched in *. simpl. by rewrite IH2.
Qed.

Lemma fetched_elem s l : s ∈ fetched l ↔ ∃ o, Fetch s o ∈ l.
Proof.
  unfold fetched. rewrite list_elem_of_omap. split.
  - intros (e & He & Hs). destruct e; simplify_eq. eauto.
  - intros (o & Ho). exists (Fetch s o). done.
Qed.

Lemma fetching_other E syms l evs prices prices' s :
  fetching E syms l evs prices prices' ->
  s ∉ fetched evs -> prices' !! s = prices !! s.
Proof.
  induction 1 as [| sym rest l evs p p' Ht _ IH
                   | sym o rest l evs p p' Ht _ IH]; intros Hs.
  - done.
  - by apply IH.
  - unfold fetched in Hs. simpl in Hs. fold (fetched evs) in Hs.
    apply not_elem_of_cons in Hs as [Hne Hs].
    rewrite IH by done. by rewrite lookup_insert_ne.
Qed.

Lemma fetching_stored E syms l evs prices prices' s o :
  fetching E syms l evs prices prices' ->
  NoDup syms -> Fetch s o ∈ evs -> prices' !! s = Some (stored_price o).
Proof.
  induction 1 as [| sym rest l evs p p' Ht Hf IH
                   | sym o' rest l evs p p' Ht Hf IH]; intros Hnd Hin.
  - by apply elem_of_nil in Hin.
  - apply NoDup_cons in Hnd as [_ Hnd]. by apply IH.
  - apply NoDup_cons in Hnd as [Hnotin Hnd].
    apply elem_of_cons in Hin as [Heq | Hin]; [| by apply IH].
    simplify_eq.
    rewrite (fetching_other _ _ _ _ _ _ sym Hf).
    + by rewrite lookup_insert_eq.
    + destruct (fetching_fetched _ _ _ _ _ _ Hf) as [_ ->].
      intros Hin. apply list_elem_of_In, filter_In in Hin as [Hin _].
      by apply list_elem_of_In in Hin.
Qed.

(** *** Facts about the second loop *)

Lemma checked_sends E prices i items l evs res :
  checked E prices i items l evs res -> forallb is_send evs = true.
Proof. induction 1; simpl; done. Qed.

Lemma checked_fired E prices i items l evs res j n ok :
  checked E prices i items l evs res ->
  Send j n ok ∈ evs ->
  (i <= j)%nat /\
  ∃ a cur, items !! (j - i) = Some a /\ fires prices a = true /\
           price_for prices a = Some cur /\ n = notice E a cur.
Proof.
  induction 1 as [i l | i a rest l evs res Hf _ IH
                  | i a cur rest l evs res Hf Hp Hs _ IH
                  | i a cur rest l Hf Hp Hs]; intros Hin.
  - by apply elem_of_nil in Hin.
  - destruct (IH Hin) as (Hle & b & c & Hb & ?). split; [lia |].
    exists b, c. replace (j - i) with (S (j - S i)) by lia. done.
  - apply elem_of_cons in Hin as [Heq | Hin].
    + simplify_eq. split; [lia |]. exists a, cur.
      by rewrite Nat.sub_diag.
    + destruct (IH Hin) as (Hle & b & c & Hb & ?). split; [lia |].
      exists b, c. replace (j - i) with (S (j - S i)) by lia. done.
  - apply list_elem_of_singleton in Hin. simplify_eq. split; [lia |].
    exists a, cur. by rewrite Nat.sub_diag.
Qed.

Lemma checked_done E prices i items l evs items' :
  checked E prices i items l evs (Some items') ->
  items' = checked_alert prices <$> items /\
  (∀ j n ok, Send j n ok ∈ evs -> ok = true) /\
  (evs = [] -> items' = items).
Proof.
  remember (Some items') as res eqn:Hres.
  intros H. revert items' Hres.
  induction H as [i l | i a rest l evs res Hf _ IH
                  | i a cur rest l evs res Hf Hp Hs _ IH
                  | i a cur rest l Hf Hp Hs]; intros items' Hres.
  - simplify_eq. repeat split; try done.
    intros j n ok Hin. by apply elem_of_nil in Hin.
  - destruct res as [r |]; simplify_eq/=.
    destruct (IH r eq_refl) as (-> & Hok & Hnil).
    assert (Ha : checked_alert prices a = a)
      by (unfold checked_alert; by rewrite Hf).
    rewrite Ha. repeat split; try done.
    intros ->. by rewrite Hnil.
  - destruct res as [r |]; simplify_eq/=.
    destruct (IH r eq_refl) as (-> & Hok & Hnil).
    assert (Ha : checked_alert prices a = set_inactive a)
      by (unfold checked_alert; by rewrite Hf).
    rewrite Ha. repeat split; try done.
    intros j n ok Hin. apply elem_of_cons in Hin as [Heq | Hin].
    + by simplify_eq.
    + by eapply Hok.
  - done.
Qed.


Lemma checked_reached E prices i items l evs res k a cur :
  checked E prices i items l evs res ->
  items !! k = Some a ->
  fires prices a = true ->
  price_for prices a = Some cur ->
  (∀ j n, Send j n false ∈ evs -> (i + k <= j)%nat) ->
  ∃ ok, Send (i + k) (notice E a cur) ok ∈ evs.
Proof.
  intros H. revert k.
  induction H as [i l | i b rest l evs res Hf _ IH
                  | i b c rest l evs res Hf Hp Hs _ IH
                  | i b c rest l Hf Hp Hs]; intros k Hk Hfa Hpa Hno.
  - done.
  - destruct k as [| k]; simplify_eq/=; [congruence |].
    destruct (IH k Hk Hfa Hpa) as [ok Hok].
    + intros j n Hin. specialize (Hno j n Hin). lia.
    + exists ok. by replace (i + S k) with (S i + k) by lia.
  - destruct k as [| k]; simplify_eq/=.
    + exists true. rewrite Nat.add_0_r. by apply elem_of_cons; left.
    + destruct (IH k Hk Hfa Hpa) as [ok Hok].
      * intros j n Hin.
        assert (i + S k <= j)%nat; [| lia].
        apply (Hno j n). by apply elem_of_cons; right.
      * exists ok. replace (i + S k) with (S i + k) by lia.
        by apply elem_of_cons; right.
  - destruct k as [| k]; simplify_eq/=.
    + exists false. rewrite Nat.add_0_r. by apply list_elem_of_singleton.
    + assert (i + S k <= i)%nat; [| lia].
      apply (Hno i (notice E b c)). by apply list_elem_of_singleton.
Qed.

(** ** The evaluation of one alert *)

Lemma hit_crossing a cur :
  hit (PyStr.upper (direction a)) cur (target a) = true ↔ crossing a cur.
Proof.
  unfold hit, crossing.
  rewrite orb_true_iff, !andb_true_iff, !String.eqb_eq. tauto.
Qed.

Lemma SFcompare_Eq_sym x y :
  SFcompare x y = Some Eq -> SFcompare y x = Some Eq.
Proof.
  destruct x as [sx | sx | | sx mx ex], y as [sy | sy | | sy my ey];
    simpl; try done;
    try (destruct sx; done); try (destruct sy; done);
    try (destruct sx, sy; done).
  change (PosDef.Pos.compare_cont Eq my mx) with (Pos.compare my mx).
  change (PosDef.Pos.compare_cont Eq mx my) with (Pos.compare mx my).
  rewrite (Z.compare_antisym ex ey), (Pos.compare_antisym mx my).
  destruct sx, sy; try done;
    destruct (ex ?= ey)%Z; simpl; try done;
    destruct (mx ?= my)%positive; done.
Qed.

Lemma float_eq_le cur tgt :
  PyFloat.eq cur tgt = true ->
  PyFloat.ge cur tgt = true /\ PyFloat.le cur tgt = true.
Proof.
  unfold PyFloat.eq, PyFloat.ge, PyFloat.le, SFeqb, SFleb. intros H.
  destruct (SFcompare cur tgt) as [[] |] eqn:Hc; try done.
  by rewrite (SFcompare_Eq_sym _ _ Hc).
Qed.

(** C1: on an active alert for which the price table holds a price, the
    loop body fires (hands a message about the alert to the channel)
    exactly when the direction is ABOVE and the price is >= the target,
    or the direction is BELOW and the price is <= the target.  When it
    fires and the message is delivered, the body leaves the alert
    inactive and sets [changed]; when it does not fire, alert and world
    are untouched.  A price equal to the target fires in both
    directions. *)
Theorem evaluator_fires_iff_crossing (E : env) (prices : price_table)
    (i : nat) (a : alert) (cur : float) (w : world) :
  active a = true ->
  price_for prices a = Some cur ->
  ((∃ ok, log (check_alert E prices i a w).1
          = log w ++ [Send i (notice E a cur) ok])
   ↔ crossing a cur) /\
  (crossing a cur -> send_message E (log w) (notice E a cur) = true ->
   (check_alert E prices i a w).2 = Ret (set_inactive a, true)) /\
  (¬ crossing a cur -> check_alert E prices i a w = (w, Ret (a, false))) /\
  (PyFloat.eq cur (target a) = true ->
   PyStr.upper (direction a) = "ABOVE" \/ PyStr.upper (direction a) = "BELOW" ->
   crossing a cur).
Proof.
  intros Ha Hp. rewrite check_alert_eq. unfold fires. rewrite Ha, Hp. simpl.
  destruct (hit (PyStr.upper (direction a)) cur (target a)) eqn:Hh.
  - apply hit_crossing in Hh. simpl. split; [| split; [| split]].
    + split; [done |]. intros _. by eexists.
    + by intros _ ->.
    + by intros [].
    + done.
  - assert (Hn : ¬ crossing a cur).
    { intros Hc. apply hit_crossing in Hc. congruence. }
    split; [| split; [| split]].
    + split; [| done]. intros [ok Hl]. apply (f_equal length) in Hl.
      rewrite length_app in Hl. simpl in Hl. lia.
    + done.
    + done.
    + intros Heq Hd. apply float_eq_le in Heq as [Hge Hle].
      unfold crossing. tauto.
Qed.

Lemma evaluator_fires_iff_crossing_witness :
  let a := Sample.btc_above 42 Sample.f65000 true in
  let prices : price_table := {["BTC" := Some Sample.f65000]} in
  active a = true /\ price_for prices a = Some Sample.f65000 /\
  crossing a Sample.f65000.
Proof.
  intros a prices.
  assert (Ha : active a = true) by reflexivity.
  assert (Hp : price_for prices a = Some Sample.f65000) by reflexivity.
  split; [exact Ha |]. split; [exact Hp |].
  apply (evaluator_fires_iff_crossing (Sample.calm Sample.f65000) prices 0 a
           Sample.f65000 {| disk := Absent; log := [] |} Ha Hp).
  - reflexivity.
  - left. reflexivity.
Defined.

(** ** Which symbols are fetched *)

Lemma active_symbols_NoDup items : NoDup (active_symbols items).
Proof.
  unfold active_symbols. rewrite merge_sort_Permutation.
  apply NoDup_remove_dups.
Qed.

Lemma active_symbols_elem items s :
  s ∈ active_symbols items ↔ ∃ a, a ∈ items /\ active a = true /\ symbol a = s.
Proof.
  unfold active_symbols.
  rewrite merge_sort_Permutation, elem_of_remove_dups, list_elem_of_fmap.
  split.
  - intros (a & -> & Ha). apply list_elem_of_In, filter_In in Ha as [Hin Hact].
    exists a. by rewrite list_elem_of_In.
  - intros (a & Hin & Hact & <-). exists a. split; [done |].
    apply list_elem_of_In, filter_In. by rewrite <- list_elem_of_In.
Qed.

Lemma fetched_app l1 l2 : fetched (l1 ++ l2) = fetched l1 ++ fetched l2.
Proof. apply omap_app. Qed.

Lemma fetched_sends evs : forallb is_send evs = true -> fetched evs = [].
Proof.
  induction evs as [| e evs IH]; [done |]. simpl.
  intros [He Hevs]%andb_true_iff. destruct e; try done.
  unfold fetched in *. simpl. by apply IH.
Qed.

Lemma cycle_log_fetched E f :
  fetched (cycle_log E f)
  = List.filter PyStr.truthy (active_symbols (stored_alerts f)).
Proof.
  unfold cycle_log.
  destruct (cycle_cases E f) as (fev & prices & sev & res & Hf & Hc & ->).
  destruct (fetching_fetched _ _ _ _ _ _ Hf) as [_ <-].
  pose proof (fetched_sends _ (checked_sends _ _ _ _ _ _ _ Hc)) as Hs.
  destruct res as [items' |]; [case_bool_decide |]; simpl;
    rewrite !fetched_app, Hs, ?app_nil_r; done.
Qed.

Lemma filter_eqb_NoDup (s : string) (l : list string) :
  NoDup l ->
  length (List.filter (String.eqb s) l) = if bool_decide (s ∈ l) then 1 else 0.
Proof.
  intros Hl. induction Hl as [| x l Hx Hnd IH]; [done |]. simpl.
  destruct (String.eqb_spec s x) as [-> | Hne]; simpl.
  - rewrite IH. rewrite (bool_decide_eq_false_2 (x ∈ l)) by done.
    rewrite bool_decide_eq_true_2; [done | by left].
  - rewrite IH. apply f_equal with (f := fun b : bool => if b then 1 else 0).
    apply bool_decide_ext. rewrite elem_of_cons. tauto.
Qed.

(** C6: in every cycle, [get_symbol_price] is called exactly once for a
    symbol that an active alert of the loaded collection carries, and
    not at all for any other symbol, in particular not for a symbol
    carried by inactive alerts only.  (The empty string is not a symbol:
    the loop skips it.) *)
Theorem one_fetch_per_active_symbol (E : env) (f : file_state) (s : string) :
  fetch_count s (cycle_log E f) =
    if PyStr.truthy s
       && bool_decide (s ∈ symbol <$> List.filter active (stored_alerts f))
    then 1 else 0.
Proof.
  unfold fetch_count. rewrite cycle_log_fetched.
  rewrite filter_eqb_NoDup.
  2:{ apply NoDup_ListNoDup, List.NoDup_filter, NoDup_ListNoDup,
        active_symbols_NoDup. }
  apply f_equal with (f := fun b : bool => if b then 1 else 0).
  destruct (PyStr.truthy s) eqn:Ht; simpl.
  - apply bool_decide_ext.
    rewrite list_elem_of_In, filter_In, <- list_elem_of_In.
    unfold active_symbols.
    rewrite merge_sort_Permutation, elem_of_remove_dups. tauto.
  - apply bool_decide_eq_false_2.
    rewrite list_elem_of_In, filter_In. intros [_ H]. congruence.
Qed.

(** ** Deactivation by ordinal *)

Lemma set_inactive_id a : active a = false -> set_inactive a = a.
Proof. destruct a; simpl; by intros ->. Qed.

Lemma owned_by_set_inactive u a : owned_by u (set_inactive a) = owned_by u a.
Proof. done. Qed.

Lemma user_items_from_length i u items :
  length (user_items_from i u items) = length (List.filter (owned_by u) items).
Proof.
  revert i. induction items as [| a rest IH]; intros i; simpl; [done |].
  destruct (owned_by u a); simpl; by rewrite IH.
Qed.

(** The [k]-th entry of the index list is the position of the [k]-th
    alert of the owner: that alert sits there, and exactly [k] alerts of
    the owner precede it. *)
Lemma user_items_from_lookup i u items k r :
  user_items_from i u items !! k = Some r ->
  (i <= r)%nat /\
  ∃ a, items !! (r - i) = Some a /\ owned_by u a = true /\
       List.filter (owned_by u) items !! k = Some a /\
       length (List.filter (owned_by u) (take (r - i) items)) = k.
Proof.
  revert i k. induction items as [| a rest IH]; intros i k; simpl; [done |].
  destruct (owned_by u a) eqn:Ho.
  - destruct k as [| k]; simpl.
    + intros [= <-]. split; [lia |]. exists a. by rewrite Nat.sub_diag.
    + intros H. destruct (IH _ _ H) as (Hle & b & Hb & Hob & Hk & Hlen).
      split; [lia |]. exists b.
      replace (r - i) with (S (r - S i)) by lia. simpl. rewrite Ho. simpl.
      by rewrite Hlen.
  - intros H. destruct (IH _ _ H) as (Hle & b & Hb & Hob & Hk & Hlen).
    split; [lia |]. exists b.
    replace (r - i) with (S (r - S i)) by lia. simpl. by rewrite Ho.
Qed.

Lemma user_items_from_alter i u (r : nat) (items : list alert) :
  user_items_from i u (alter set_inactive r items) = user_items_from i u items.
Proof.
  revert i r. induction items as [| a rest IH]; intros i r; [done |].
  destruct r as [| r]; simpl.
  - by rewrite owned_by_set_inactive.
  - change (list_alter set_inactive r rest) with (alter set_inactive r rest).
    by rewrite IH.
Qed.

Lemma filter_owned_alter u (r : nat) (items : list alert) k a :
  items !! r = Some a -> owned_by u a = true ->
  length (List.filter (owned_by u) (take r items)) = k ->
  List.filter (owned_by u) (alter set_inactive r items)
  = <[k := set_inactive a]> (List.filter (owned_by u) items).
Proof.
  revert r k. induction items as [| b rest IH]; intros r k; [done |].
  destruct r as [| r]; simpl.
  - intros [= ->] Ho <-. rewrite owned_by_set_inactive, Ho. done.
  - change (list_alter set_inactive r rest) with (alter set_inactive r rest).
    intros Hr Ho. destruct (owned_by u b) eqn:Hb; simpl.
    + intros <-. simpl. f_equal. by apply IH.
    + by apply IH.
Qed.

Lemma filter_other_alter u (r : nat) (items : list alert) a :
  items !! r = Some a -> owned_by u a = false ->
  List.filter (owned_by u) (alter set_inactive r items)
  = List.filter (owned_by u) items.
Proof.
  revert r. induction items as [| b rest IH]; intros r; [done |].
  destruct r as [| r]; simpl.
  - intros [= ->] Ho. by rewrite owned_by_set_inactive, Ho.
  - change (list_alter set_inactive r rest) with (alter set_inactive r rest).
    intros Hr Ho. rewrite (IH r Hr Ho). done.
Qed.

Lemma alter_set_inactive (r : nat) (items : list alert) a :
  items !! r = Some a ->
  alter set_inactive r items = <[r := set_inactive a]> items.
Proof.
  revert r. induction items as [| b rest IH]; intros r; [done |].
  destruct r as [| r]; simpl.
  - by intros [= ->].
  - change (list_alter set_inactive r rest) with (alter set_inactive r rest).
    intros Hr. f_equal. by apply IH.
Qed.

Lemma deactivate_alert_eq E u idx f :
  run (deactivate_alert E u idx) f =
    match (if (0 <=? idx)%Z
           then user_items u (stored_alerts f) !! Z.to_nat idx else None) with
    | Some r =>
        let items' := alter set_inactive r (stored_alerts f) in
        let ok := write_text E [] (JList items') in
        (if ok then Holds (JList items') else f, [Write (JList items') ok],
         Ret true)
    | None => (f, [], Ret false)
    end.
Proof.
  unfold run, deactivate_alert, bind. rewrite load_alerts_eq. simpl.
  destruct (idx <? 0)%Z eqn:Hneg; simpl.
  - apply Z.ltb_lt in Hneg.
    destruct (0 <=? idx)%Z eqn:Hpos; [apply Z.leb_le in Hpos; lia | done].
  - apply Z.ltb_ge in Hneg. rewrite (proj2 (Z.leb_le 0 idx) Hneg).
    destruct (Z.of_nat (length (user_items u (stored_alerts f))) <=? idx)%Z
      eqn:Hlen; simpl.
    + apply Z.leb_le in Hlen. rewrite lookup_ge_None_2 by lia. done.
    + apply Z.leb_gt in Hlen.
      destruct (lookup_lt_is_Some_2 (user_items u (stored_alerts f))
                  (Z.to_nat idx)) as [r Hr]; [lia |].
      rewrite Hr. rewrite save_alerts_eq. simpl. done.
Qed.



Lemma deactivate_alert_true E u idx f f1 l1 :
  run (deactivate_alert E u idx) f = (f1, l1, Ret true) ->
  ∃ r a,
    (0 <= idx)%Z /\
    user_items u (stored_alerts f) !! Z.to_nat idx = Some r /\
    stored_alerts f !! r = Some a /\ owned_by u a = true /\
    List.filter (owned_by u) (stored_alerts f) !! Z.to_nat idx = Some a /\
    length (List.filter (owned_by u) (take r (stored_alerts f)))
      = Z.to_nat idx /\
    l1 = [Write (JList (alter set_inactive r (stored_alerts f)))
            (write_text E [] (JList (alter set_inactive r (stored_alerts f))))]
    /\
    f1 = (if write_text E [] (JList (alter set_inactive r (stored_alerts f)))
          then Holds (JList (alter set_inactive r (stored_alerts f))) else f).
Proof.
  rewrite deactivate_alert_eq.
  destruct (0 <=? idx)%Z eqn:Hpos; [| done]. apply Z.leb_le in Hpos.
  destruct (user_items u (stored_alerts f) !! Z.to_nat idx) as [r |] eqn:Hr;
    [| done].
  cbv zeta. intros [= <- <-].
  destruct (user_items_from_lookup _ _ _ _ _ Hr)
    as (_ & a & Ha & Ho & Hka & Hpre).
  rewrite Nat.sub_0_r in Ha, Hpre. by exists r, a.
Qed.

(** Deactivating an alert that is already inactive: success, and the
    collection written is the one that was read. *)
Lemma deactivate_inactive_noop E u idx f a :
  (0 <= idx)%Z ->
  List.filter (owned_by u) (stored_alerts f) !! Z.to_nat idx = Some a ->
  active a = false ->
  run (deactivate_alert E u idx) f =
    (f, [Write (JList (stored_alerts f))
           (write_text E [] (JList (stored_alerts f)))], Ret true).
Proof.
  intros Hpos Hk Ha. rewrite deactivate_alert_eq.
  rewrite (proj2 (Z.leb_le 0 idx) Hpos).
  destruct (lookup_lt_is_Some_2 (user_items u (stored_alerts f))
              (Z.to_nat idx)) as [r Hr].
  { unfold user_items. rewrite user_items_from_length.
    by eapply lookup_lt_Some. }
  rewrite Hr. cbv zeta.
  destruct (user_items_from_lookup _ _ _ _ _ Hr)
    as (_ & b & Hb & Ho & Hkb & Hpre).
  rewrite Nat.sub_0_r in Hb. assert (b = a) as -> by congruence.
  assert (Hsame : alter set_inactive r (stored_alerts f) = stored_alerts f).
  { rewrite (alter_set_inactive r _ a Hb), set_inactive_id by done.
    by apply list_insert_id. }
  rewrite Hsame.
  destruct (write_text E [] (JList (stored_alerts f))); [| done].
  rewrite <- stored_alerts_holds; [done |].
  destruct f as [| | t | d]; try done. by destruct d.
Qed.

(** C10: a deactivation that succeeded and was written.  (1) Ordinals
    are stable: for every user the positions of the user's alerts in the
    store are the same before and after, and every alert of every
    listing keeps its ordinal, the alert at ordinal [idx] of the owner
    being the only one that differs (in [active]).  (2) Deactivating the
    same ordinal again, in any environment, answers success and leaves
    the store as the first deactivation left it: the collection written
    is the same document. *)
Theorem deactivate_stable_and_idempotent (E1 E2 : env) (f f1 : file_state)
    (owner : Z) (idx : Z) (doc : json) :
  run (deactivate_alert E1 owner idx) f = (f1, [Write doc true], Ret true) ->
  (∀ u, user_items u (stored_alerts f1) = user_items u (stored_alerts f)) /\
  (∀ u k b,
     List.filter (owned_by u) (stored_alerts f) !! k = Some b ->
     List.filter (owned_by u) (stored_alerts f1) !! k
     = Some (if bool_decide (u = owner /\ k = Z.to_nat idx)
             then set_inactive b else b)) /\
  f1 = Holds doc /\
  run (deactivate_alert E2 owner idx) f1
  = (f1, [Write doc (write_text E2 [] doc)], Ret true).
Proof.
  intros Hrun.
  destruct (deactivate_alert_true _ _ _ _ _ _ Hrun)
    as (r & a & Hpos & Hr & Ha & Ho & Hk & Hpre & Hl & Hf1).
  injection Hl as -> Hw. rewrite <- Hw in Hf1. subst f1. simpl.
  assert (Hstable : ∀ u, user_items u (alter set_inactive r (stored_alerts f))
                         = user_items u (stored_alerts f))
    by (intros u; apply user_items_from_alter).
  assert (Hview : ∀ u k b,
    List.filter (owned_by u) (stored_alerts f) !! k = Some b ->
    List.filter (owned_by u) (alter set_inactive r (stored_alerts f)) !! k
    = Some (if bool_decide (u = owner /\ k = Z.to_nat idx)
            then set_inactive b else b)).
  { intros u k b Hb. destruct (owned_by u a) eqn:Hu.
    - assert (u = owner) as ->.
      { unfold owned_by in *. apply Z.eqb_eq in Hu, Ho. congruence. }
      rewrite (filter_owned_alter owner r _ (Z.to_nat idx) a Ha Ho Hpre).
      destruct (decide (k = Z.to_nat idx)) as [-> | Hne].
      + rewrite bool_decide_eq_true_2 by done.
        assert (b = a) as -> by congruence.
        apply list_lookup_insert_eq. by eapply lookup_lt_Some.
      + rewrite bool_decide_eq_false_2 by tauto.
        by rewrite list_lookup_insert_ne.
    - rewrite (filter_other_alter u r _ a Ha Hu).
      rewrite bool_decide_eq_false_2; [done |].
      intros [-> _]. congruence. }
  repeat split; try done.
  pose proof (deactivate_inactive_noop E2 owner idx
                (Holds (JList (alter set_inactive r (stored_alerts f))))
                (set_inactive a) Hpos) as Hnoop.
  cbn [stored_alerts] in Hnoop. apply Hnoop; [| done].
  rewrite (Hview owner (Z.to_nat idx) a Hk).
  by rewrite bool_decide_eq_true_2.
Qed.

Lemma deactivate_stable_and_idempotent_witness :
  let f := Holds (JList [Sample.btc_above 9 Sample.f65000 true;
                         Sample.btc_above 7 Sample.f64000 true;
                         Sample.usduah_below 7 Sample.f65000 true]) in
  let doc := JList [Sample.btc_above 9 Sample.f65000 true;
                    Sample.btc_above 7 Sample.f64000 false;
                    Sample.usduah_below 7 Sample.f65000 true] in
  run (deactivate_alert (Sample.calm Sample.f64000) 7 0) f
    = (Holds doc, [Write doc true], Ret true) /\
  run (deactivate_alert (Sample.read_only Sample.f64000) 7 0) (Holds doc)
    = (Holds doc, [Write doc false], Ret true).
Proof.
  intros f doc.
  assert (H : run (deactivate_alert (Sample.calm Sample.f64000) 7 0) f
              = (Holds doc, [Write doc true], Ret true)) by reflexivity.
  split; [exact H |].
  apply (deactivate_stable_and_idempotent
           (Sample.calm Sample.f64000) (Sample.read_only Sample.f64000)
           f (Holds doc) 7 0 doc H).
Defined.

(** ** The anatomy of a cycle *)

Lemma forallb_elem {A} (p : A -> bool) (l : list A) x :
  forallb p l = true -> x ∈ l -> p x = true.
Proof.
  intros H Hin. apply list_elem_of_In in Hin.
  by apply (proj1 (forallb_forall p l) H).
Qed.

Lemma cycle_anatomy E f :
  ∃ fev prices sev res ws,
    fetching E (active_symbols (stored_alerts f)) [] fev ∅ prices /\
    checked E prices 0 (stored_alerts f) fev sev res /\
    cycle_log E f = fev ++ sev ++ ws /\
    (ws = [] \/
     ∃ items', res = Some items' /\ sev ≠ [] /\
               ws = [Write (JList items')
                       (write_text E (fev ++ sev) (JList items'))]) /\
    (cycle_store E f = f \/
     ∃ items', res = Some items' /\ sev ≠ [] /\
               cycle_store E f = Holds (JList items')) /\
    (cycle E f).2 = Ret tt /\
    (∀ s o, Fetch s o ∈ cycle_log E f ↔ Fetch s o ∈ fev) /\
    (∀ i n ok, Send i n ok ∈ cycle_log E f ↔ Send i n ok ∈ sev).
Proof.
  unfold cycle_log, cycle_store.
  destruct (cycle_cases E f) as (fev & prices & sev & res & Hf & Hc & Heq).
  pose proof (proj1 (fetching_fetched _ _ _ _ _ _ Hf)) as Hfev.
  pose proof (checked_sends _ _ _ _ _ _ _ Hc) as Hsev.
  set (ws := match res with
             | Some items' =>
                 if bool_decide (sev ≠ []) then
                   [Write (JList items')
                      (write_text E (fev ++ sev) (JList items'))]
                 else []
             | None => []
             end).
  assert (Hlog : (cycle E f).1.2 = fev ++ sev ++ ws).
  { rewrite Heq. unfold ws. destruct res; [case_bool_decide |]; simpl;
      by rewrite ?app_nil_r. }
  assert (Hws : forallb is_write ws = true).
  { unfold ws. destruct res; [case_bool_decide |]; done. }
  exists fev, prices, sev, res, ws. repeat split; try done.
  - unfold ws. destruct res as [items' |]; [| by left].
    case_bool_decide; [| by left]. right. by exists items'.
  - rewrite Heq. destruct res as [items' |]; [| by left].
    case_bool_decide; [| by left].
    destruct (write_text E (fev ++ sev) (JList items')); [| by left].
    right. by exists items'.
  - rewrite Heq. destruct res; [case_bool_decide |]; done.
  - rewrite Hlog, !elem_of_app. intros [H | [H | H]]; [done | |].
    + by apply (forallb_elem _ _ _ Hsev) in H.
    + by apply (forallb_elem _ _ _ Hws) in H.
  - rewrite Hlog, elem_of_app. by left.
  - rewrite Hlog, !elem_of_app. intros [H | [H | H]]; [| done |].
    + by apply (forallb_elem _ _ _ Hfev) in H.
    + by apply (forallb_elem _ _ _ Hws) in H.
  - rewrite Hlog, !elem_of_app. by right; left.
Qed.

(** The price the second loop finds is the stored answer of the fetch
    of that symbol. *)
Lemma cycle_price E f fev prices s o :
  fetching E (active_symbols (stored_alerts f)) [] fev ∅ prices ->
  Fetch s o ∈ fev -> price_get prices s = stored_price o.
Proof.
  intros Hf Hin. unfold price_get.
  by rewrite (fetching_stored _ _ _ _ _ _ s o Hf (active_symbols_NoDup _) Hin).
Qed.

(** ** A failed price fetch *)

Lemma quiet_alert_stays E f fev prices sev res i a :
  checked E prices 0 (stored_alerts f) fev sev res ->
  (∀ j n ok, Send j n ok ∈ cycle_log E f ↔ Send j n ok ∈ sev) ->
  (cycle_store E f = f \/
   ∃ items', res = Some items' /\ sev ≠ [] /\
             cycle_store E f = Holds (JList items')) ->
  stored_alerts f !! i = Some a ->
  fires prices a = false ->
  ¬ fired_in (cycle_log E f) i /\
  stored_alerts (cycle_store E f) !! i = Some a.
Proof.
  intros Hc Hsend Hst Hi Hfa. split.
  - intros (n & ok & Hin). apply Hsend in Hin.
    destruct (checked_fired _ _ _ _ _ _ _ _ _ _ Hc Hin)
      as (_ & b & cur & Hb & Hfb & _).
    rewrite Nat.sub_0_r in Hb. congruence.
  - destruct Hst as [-> | (items' & -> & _ & ->)]; [done |].
    destruct (checked_done _ _ _ _ _ _ _ Hc) as (-> & _). simpl.
    rewrite list_lookup_fmap, Hi. simpl.
    unfold checked_alert. by rewrite Hfa.
Qed.

(** C5: suppose the fetch of the (upper-case) symbol [s] failed in a
    cycle: the call raised or returned [None].  Then (1) every active
    alert on [s] is left alone: no message about it, and the store after
    the cycle still holds it unchanged, active; (2) alerts whose own
    symbol got a price are evaluated all the same: such an alert, when
    the loop reaches it (no delivery failed before it), fires exactly
    when its condition holds at that price; (3) the next cycle, in any
    environment, fetches [s] again. *)
Theorem failed_fetch_keeps_alerts (E E2 : env) (f : file_state)
    (s : string) (o : outcome (option float)) :
  Fetch s o ∈ cycle_log E f ->
  stored_price o = None ->
  PyStr.upper s = s ->
  (∀ i a, stored_alerts f !! i = Some a -> active a = true -> symbol a = s ->
     ¬ fired_in (cycle_log E f) i /\
     stored_alerts (cycle_store E f) !! i = Some a) /\
  (∀ j b cur,
     stored_alerts f !! j = Some b -> active b = true ->
     Fetch (PyStr.upper (symbol b)) (Ret (Some cur)) ∈ cycle_log E f ->
     (∀ k n, Send k n false ∈ cycle_log E f -> (j <= k)%nat) ->
     (fired_in (cycle_log E f) j ↔ crossing b cur)) /\
  (∃ o2, Fetch s o2 ∈ cycle_log E2 (cycle_store E f)).
Proof.
  intros Hin Hfail Hup.
  assert (Hstay : ∀ i a, stored_alerts f !! i = Some a -> active a = true ->
            symbol a = s ->
            ¬ fired_in (cycle_log E f) i /\
            stored_alerts (cycle_store E f) !! i = Some a).
  { intros i a Hi Ha Hs.
    destruct (cycle_anatomy E f)
      as (fev & prices & sev & res & ws & Hf & Hc & _ & _ & Hst & _ & Hfe & Hse).
    apply (quiet_alert_stays E f fev prices sev res); try done.
    unfold fires, price_for. rewrite Hs, Hup.
    rewrite (cycle_price E f fev prices s o Hf), Hfail.
    - by rewrite andb_false_r.
    - by apply Hfe. }
  split; [exact Hstay |]. split.
  - intros j b cur Hj Hb Hfetch Hreach.
    destruct (cycle_anatomy E f)
      as (fev & prices & sev & res & ws & Hf & Hc & _ & _ & _ & _ & Hfe & Hse).
    apply Hfe in Hfetch.
    pose proof (cycle_price E f fev prices _ _ Hf Hfetch) as Hp.
    simpl in Hp.
    assert (Hfires : fires prices b = true ↔ crossing b cur).
    { unfold fires, price_for. rewrite Hb, Hp. simpl. apply hit_crossing. }
    split.
    + intros (n & ok & Hs). apply Hse in Hs.
      destruct (checked_fired _ _ _ _ _ _ _ _ _ _ Hc Hs)
        as (_ & b' & c' & Hb' & Hfb & _).
      rewrite Nat.sub_0_r in Hb'. apply Hfires. congruence.
    + intros Hcr. apply Hfires in Hcr.
      destruct (checked_reached _ _ _ _ _ _ _ j b cur Hc Hj Hcr Hp) as [ok Hok].
      * intros k n Hk. apply Hse in Hk. by apply (Hreach k n).
      * exists (notice E b cur), ok. by apply Hse.
  - assert (Hs : s ∈ fetched (cycle_log E f)) by (apply fetched_elem; eauto).
    rewrite cycle_log_fetched in Hs.
    apply list_elem_of_In, filter_In in Hs as [Hs Ht].
    apply list_elem_of_In, active_symbols_elem in Hs as (a & Ha & Hact & Hsym).
    apply list_elem_of_lookup in Ha as [i Hi].
    destruct (Hstay i a Hi Hact Hsym) as [_ Hi'].
    apply fetched_elem. rewrite cycle_log_fetched.
    apply list_elem_of_In, filter_In. split; [| done].
    apply list_elem_of_In, active_symbols_elem. exists a.
    split; [| done]. apply list_elem_of_lookup. eauto.
Qed.

Lemma failed_fetch_keeps_alerts_witness :
  let E := Sample.crypto_down Sample.f64000 in
  let f := Holds (JList [Sample.btc_above 42 Sample.f65000 true;
                         Sample.usduah_below 7 Sample.f65000 true]) in
  Fetch "BTC" Raise ∈ cycle_log E f /\
  ∃ o2, Fetch "BTC" o2 ∈ cycle_log (Sample.calm Sample.f64000) (cycle_store E f).
Proof.
  intros E f.
  assert (Hin : Fetch "BTC" Raise ∈ cycle_log E f).
  { assert (Hl : ∃ l, cycle_log E f = Fetch "BTC" Raise :: l)
      by (vm_compute; eauto).
    destruct Hl as [l ->]. by left. }
  split; [exact Hin |].
  apply (failed_fetch_keeps_alerts E (Sample.calm Sample.f64000) f "BTC" Raise
           Hin eq_refl eq_refl).
Defined.

(** ** The order of messages and write-back *)



(** ** The scenario of the specification *)

(** Owner 42 creates [BTC above 65000].  A cycle at 64000 sends nothing
    and leaves the alert active; the next cycle at 65500 sends one
    message to owner 42 and leaves the alert inactive. *)
Example scenario_btc_above_65000 :
  let f0 := (run (add_alert (Sample.calm Sample.f64000) 42 "btc" "above"
                    Sample.f65000) (Holds (JList []))).1.1 in
  let a := {| user_id := 42; symbol := "BTC"; direction := "ABOVE";
              target := Sample.f65000; active := true;
              created_at := "2024-05-01T10:00:00" |} in
  parse_alert_input "BTC above 65000" = Some ("BTC", "ABOVE", Sample.f65000) /\
  f0 = Holds (JList [a]) /\
  cycle (Sample.calm Sample.f64000) f0
    = (f0, [Fetch "BTC" (Ret (Some Sample.f64000))], Ret tt) /\
  cycle (Sample.calm Sample.f65500) f0
    = (Holds (JList [set_inactive a]),
       [Fetch "BTC" (Ret (Some Sample.f65500));
        Send 0 {| n_user := 42; n_lang := "en"; n_symbol := "BTC";
                  n_direction := "above"; n_target := Sample.f65000;
                  n_price := Sample.f65500 |} true;
        Write (JList [set_inactive a]) true], Ret tt).
Proof. repeat split; vm_compute; reflexivity. Qed.

(** ** A delivery that fails *)

(** Whenever a delivery fails, the cycle ends there: nothing is written
    and the store is what it was, whatever was delivered before. *)
Lemma failed_delivery_discards_cycle E f j n :
  Send j n false ∈ cycle_log E f ->
  cycle_store E f = f /\ ∀ doc ok, Write doc ok ∉ cycle_log E f.
Proof.
  intros Hin.
  destruct (cycle_anatomy E f)
    as (fev & prices & sev & res & ws & Hf & Hc & Hlog & Hws & Hst & _ & _ & Hse).
  apply Hse in Hin.
  assert (Hres : res = None).
  { destruct res as [items' |]; [| done].
    by apply (proj1 (proj2 (checked_done _ _ _ _ _ _ _ Hc))) in Hin. }
  subst res. split.
  - by destruct Hst as [-> | (items' & ? & _)].
  - destruct Hws as [-> | (items' & ? & _)]; [| done].
    intros doc ok. rewrite Hlog, !elem_of_app. intros [H | [H | H]].
    + by apply (forallb_elem _ _ _ (proj1 (fetching_fetched _ _ _ _ _ _ Hf))) in H.
    + by apply (forallb_elem _ _ _ (checked_sends _ _ _ _ _ _ _ Hc)) in H.
    + by apply elem_of_nil in H.
Qed.

(** C3 on a failing input.  Users 42 and 7 each hold [BTC above ...];
    the price 65500 crosses both targets; user 7 cannot be reached.  The
    cycle delivers the message of user 42, fails on the message of user
    7 and ends: nothing is written, both alerts are still active in the
    store, so the claim [fired_are_persisted] fails.  The next cycle
    does the same again: user 42 gets the same message a second time. *)
Theorem delivery_failure_loses_fired_state :
  let E := Sample.blocked_by 7 Sample.f65500 in
  let a42 := Sample.btc_above 42 Sample.f65000 true in
  let a7 := Sample.btc_above 7 Sample.f64000 true in
  let f := Holds (JList [a42; a7]) in
  cycle E f =
    (f, [Fetch "BTC" (Ret (Some Sample.f65500));
         Send 0 (notice E a42 Sample.f65500) true;
         Send 1 (notice E a7 Sample.f65500) false], Ret tt) /\
  ¬ fired_are_persisted E f /\
  cycle E (cycle_store E f) = cycle E f.
Proof.
  intros E a42 a7 f.
  assert (Hc : cycle E f =
    (f, [Fetch "BTC" (Ret (Some Sample.f65500));
         Send 0 (notice E a42 Sample.f65500) true;
         Send 1 (notice E a7 Sample.f65500) false], Ret tt))
    by (vm_compute; reflexivity).
  split; [exact Hc |]. split.
  - intros H. destruct (H 0) as (a' & Ha' & Hact).
    + exists (notice E a42 Sample.f65500), true.
      unfold cycle_log. rewrite Hc. simpl. by right; left.
    + unfold cycle_store in Ha'. rewrite Hc in Ha'. simpl in Ha'.
      by injection Ha' as <-.
  - unfold cycle_store. by rewrite Hc.
Qed.

(** ** The lifetime of an alert *)








(** ** The target of a parsed alert *)








(** * Properties of the rest of [bot.py] *)

(** ** Preferences *)

Lemma dict_get_set_eq {V} (d : list (string * V)) key v :
  Json.dict_get (Json.dict_set d key v) key = Some v.
Proof.
  induction d as [| [k w] rest IH]; simpl.
  - by rewrite String.eqb_refl.
  - destruct (String.eqb k key) eqn:Hk; simpl; rewrite Hk; [done | exact IH].
Qed.

Lemma dict_get_set_ne {V} (d : list (string * V)) key key' v :
  key' ≠ key ->
  Json.dict_get (Json.dict_set d key v) key' = Json.dict_get d key'.
Proof.
  intros Hne. induction d as [| [k w] rest IH]; simpl.
  - destruct (String.eqb_spec key key'); [congruence | done].
  - destruct (String.eqb_spec k key) as [-> | Hk]; simpl.
    + destruct (String.eqb_spec key key'); [congruence | done].
    + destruct (String.eqb k key'); [done | exact IH].
Qed.

Lemma key_of_inj u u' : Prefs.key_of u = Prefs.key_of u' -> u = u'.
Proof. unfold Prefs.key_of. apply pretty_Z_inj. Qed.

Lemma load_dict_holds m : Prefs.load_dict (Json.FHolds (Json.VDict m)) = m.
Proof. done. Qed.

Lemma load_dict_cases f :
  (∃ m, f = Json.FHolds (Json.VDict m) /\ Prefs.load_dict f = m)
  \/ ((∀ m, f ≠ Json.FHolds (Json.VDict m)) /\ Prefs.load_dict f = []).
Proof.
  destruct f as [| | t | d]; try (right; split; [by intros m | done]).
  destruct d; try (right; split; [by intros m | done]).
  left. by eexists.
Qed.

(** X1: [get_lang] answers ["en"] or ["ua"] for every state of
    [lang.json], and ["en"] only when the file holds a dictionary whose
    entry for the user is the string ["en"]: a missing, unreadable or
    malformed file, a document that is not a dictionary, a missing key
    and any other value all give ["ua"]. *)
Theorem get_lang_defaults_to_ua (fs : Prefs.files) (user : Z) :
  (Prefs.get_lang fs user = "en" \/ Prefs.get_lang fs user = "ua") /\
  (Prefs.get_lang fs user = "en" ↔
   ∃ m, Prefs.lang_file fs = Json.FHolds (Json.VDict m) /\
        Json.dict_get m (Prefs.key_of user) = Some (Json.VStr "en")).
Proof.
  unfold Prefs.get_lang, Prefs.load_lang_map.
  destruct (load_dict_cases (Prefs.lang_file fs)) as [(m & Hf & ->) | [Hno ->]].
  - destruct (Json.dict_get m (Prefs.key_of user)) as [v |] eqn:Hv; simpl.
    + destruct (Json.eq_str v "en") eqn:He.
      * split; [by left |]. split; [| done]. intros _. exists m.
        split; [done |]. destruct v; try done. simpl in He.
        by apply String.eqb_eq in He as ->.
      * split; [by right |]. split; [done |].
        intros (m' & Hf' & Hm'). rewrite Hf in Hf'. by simplify_eq.
    + split; [by right |]. split; [done |].
      intros (m' & Hf' & Hm'). rewrite Hf in Hf'. by simplify_eq.
  - simpl. split; [by right |]. split; [done |].
    intros (m' & Hf' & _). by destruct (Hno m').
Qed.

Lemma set_lang_effect (fs : Prefs.files) (user other : Z)
    (lang : string) :
  other ≠ user ->
  Prefs.get_lang (Prefs.set_lang true fs user lang) user
    = (if String.eqb lang "en" then "en" else "ua") /\
  Prefs.get_lang (Prefs.set_lang true fs user lang) other
    = Prefs.get_lang fs other /\
  (∀ v, Prefs.is_accepted (Prefs.set_lang true fs user lang) v
        = Prefs.is_accepted fs v) /\
  Prefs.set_lang false fs user lang = fs.
Proof.
  intros Hne. unfold Prefs.get_lang, Prefs.set_lang, Prefs.save_lang_map,
    Prefs.load_lang_map. simpl. rewrite !load_dict_holds.
  split; [| split; [| split]].
  - rewrite dict_get_set_eq. simpl. by destruct (String.eqb lang "en").
  - rewrite dict_get_set_ne; [done |].
    intros Hk. by apply key_of_inj in Hk.
  - done.
  - by destruct fs.
Qed.

(** X2: after [set_lang(user, lang)] with a write that goes through,
    [get_lang(user)] is ["en"] when [lang] was ["en"] and ["ua"] for any
    other value; the language of every other user and every acceptance
    flag are what they were, whatever the state of [lang.json] was
    before.  When the write fails, nothing changes. *)
Theorem set_lang_then_get_lang (fs : Prefs.files) (user other : Z)
    (lang : string) :
  other ≠ user ->
  Prefs.get_lang (Prefs.set_lang true fs user lang) user
    = (if String.eqb lang "en" then "en" else "ua") /\
  Prefs.get_lang (Prefs.set_lang true fs user lang) other
    = Prefs.get_lang fs other /\
  (∀ v, Prefs.is_accepted (Prefs.set_lang true fs user lang) v
        = Prefs.is_accepted fs v) /\
  Prefs.set_lang false fs user lang = fs.
Proof. apply set_lang_effect. Qed.

Lemma set_lang_then_get_lang_witness :
  Prefs.get_lang
    (Prefs.set_lang true
       {| Prefs.accepted_file := Json.FAbsent;
          Prefs.lang_file := Json.FMalformed "{" |} 42 "en") 42 = "en".
Proof.
  apply (set_lang_then_get_lang _ 42 7 "en"). lia.
Defined.

Lemma set_accepted_effect (fs : Prefs.files) (user other : Z)
    (val : bool) :
  other ≠ user ->
  Prefs.is_accepted (Prefs.set_accepted true fs user val) user = val /\
  Prefs.is_accepted (Prefs.set_accepted true fs user val) other
    = Prefs.is_accepted fs other /\
  (∀ v, Prefs.get_lang (Prefs.set_accepted true fs user val) v
        = Prefs.get_lang fs v) /\
  Prefs.set_accepted false fs user val = fs.
Proof.
  intros Hne. unfold Prefs.is_accepted, Prefs.set_accepted,
    Prefs.save_accepted, Prefs.load_accepted. simpl. rewrite !load_dict_holds.
  split; [| split; [| split]].
  - by rewrite dict_get_set_eq.
  - rewrite dict_get_set_ne; [done |].
    intros Hk. by apply key_of_inj in Hk.
  - done.
  - by destruct fs.
Qed.

(** X3: after [set_accepted(user, val)] with a write that goes through,
    [is_accepted(user)] is [val]; the flag of every other user and every
    language are what they were.  When the write fails, nothing
    changes. *)
Theorem set_accepted_then_is_accepted (fs : Prefs.files) (user other : Z)
    (val : bool) :
  other ≠ user ->
  Prefs.is_accepted (Prefs.set_accepted true fs user val) user = val /\
  Prefs.is_accepted (Prefs.set_accepted true fs user val) other
    = Prefs.is_accepted fs other /\
  (∀ v, Prefs.get_lang (Prefs.set_accepted true fs user val) v
        = Prefs.get_lang fs v) /\
  Prefs.set_accepted false fs user val = fs.
Proof. apply set_accepted_effect. Qed.

Lemma set_accepted_then_is_accepted_witness :
  Prefs.is_accepted
    (Prefs.set_accepted true
       {| Prefs.accepted_file := Json.FHolds (Json.VList []);
          Prefs.lang_file := Json.FAbsent |} 42 true) 42 = true.
Proof.
  apply (set_accepted_then_is_accepted _ 42 7 true). lia.
Defined.

(** ** The disclaimer gate *)

(** X4: a handler wrapped by [require_accept] is not run for a user who
    has not accepted: the wrapper sends the disclaimer and the language
    prompt and leaves the files alone, whatever the handler is.  Once
    the user has pressed accept (and the write went through) the wrapper
    runs the handler for that user, and still not for another user who
    has not accepted.  When the write of the acceptance fails, the user
    is told the same [Accepted] message but nothing is stored. *)
Theorem require_accept_gate (func : Gate.handler) (fs : Prefs.files)
    (user other : Z) :
  other ≠ user ->
  (Prefs.is_accepted fs user = false ->
   Gate.require_accept func fs user
   = (fs, [Gate.Disclaimer (Prefs.get_lang fs user);
           Gate.ChooseLanguage (Prefs.get_lang fs user)])) /\
  Gate.require_accept func (Gate.disclaimer_accept true fs user).1 user
    = func (Gate.disclaimer_accept true fs user).1 user /\
  (Prefs.is_accepted fs other = false ->
   Gate.require_accept func (Gate.disclaimer_accept true fs user).1 other
   = ((Gate.disclaimer_accept true fs user).1,
      [Gate.Disclaimer (Prefs.get_lang fs other);
       Gate.ChooseLanguage (Prefs.get_lang fs other)])) /\
  Gate.disclaimer_accept false fs user
    = (fs, [Gate.Accepted (Prefs.get_lang fs user)]).
Proof.
  intros Hne.
  destruct (set_accepted_effect fs user other true Hne)
    as (Hset & Hother & Hlang & Hfail).
  unfold Gate.require_accept, Gate.disclaimer_accept. simpl.
  split; [| split; [| split]].
  - by intros ->.
  - by rewrite Hset.
  - intros Hno. by rewrite Hother, Hno, Hlang.
  - by rewrite Hfail.
Qed.

Lemma require_accept_gate_witness :
  Gate.cmd_help {| Prefs.accepted_file := Json.FAbsent;
                   Prefs.lang_file := Json.FAbsent |} 42%Z
  = ({| Prefs.accepted_file := Json.FAbsent; Prefs.lang_file := Json.FAbsent |},
     [Gate.Disclaimer "ua"; Gate.ChooseLanguage "ua"]).
Proof.
  unfold Gate.cmd_help.
  destruct (require_accept_gate
              (fun fs user => (fs, [Gate.Help (Prefs.get_lang fs user)]))
              {| Prefs.accepted_file := Json.FAbsent;
                 Prefs.lang_file := Json.FAbsent |} 42 7) as [Hgate _];
    [lia |].
  apply Hgate. reflexivity.
Defined.

(** X5: [lang_pick] on the text of one of the two language buttons
    stores ["en"] for the English button and ["ua"] for the Ukrainian
    one and answers in the language just stored; it does so for users
    who have not accepted too, and changes no acceptance flag.  When the
    write fails the files are unchanged and the answer is in the old
    language. *)
Theorem lang_pick_sets_language (fs : Prefs.files) (user : Z) (text : string) :
  text = Gate.LANG_UA \/ text = Gate.LANG_EN ->
  Prefs.get_lang (Gate.lang_pick true text fs user).1 user
    = (if String.eqb text Gate.LANG_EN then "en" else "ua") /\
  (Gate.lang_pick true text fs user).2
    = [Gate.LanguageChanged
         (if String.eqb text Gate.LANG_EN then "en" else "ua")] /\
  (∀ v, Prefs.is_accepted (Gate.lang_pick true text fs user).1 v
        = Prefs.is_accepted fs v) /\
  Gate.lang_pick false text fs user
    = (fs, [Gate.LanguageChanged (Prefs.get_lang fs user)]).
Proof.
  assert (Hset : ∀ l, Prefs.get_lang (Prefs.set_lang true fs user l) user
                      = (if String.eqb l "en" then "en" else "ua")).
  { intros l. apply (set_lang_effect fs user (user + 1) l). lia. }
  assert (Hfail : ∀ l, Prefs.set_lang false fs user l = fs).
  { intros l. apply (set_lang_effect fs user (user + 1) l). lia. }
  intros [-> | ->]; unfold Gate.lang_pick;
    match goal with
    | |- context [Gate.contains "English" ?t] =>
        let b := eval vm_compute in (Gate.contains "English" t) in
        change (Gate.contains "English" t) with b
    end; cbn [fst snd]; rewrite !Hset, !Hfail; done.
Qed.

Lemma lang_pick_sets_language_witness :
  Prefs.get_lang
    (Gate.lang_pick true Gate.LANG_EN
       {| Prefs.accepted_file := Json.FAbsent;
          Prefs.lang_file := Json.FAbsent |} 42%Z).1 42 = "en".
Proof.
  apply (lang_pick_sets_language _ 42 Gate.LANG_EN). by right.
Defined.

(** ** P2P sellers and the dashboard *)

Lemma seller_of_fields_asdict x : P2P.seller_of_fields (P2P.asdict x) = x.
Proof. by destruct x. Qed.

Lemma load_saved_sellers items :
  P2P.load_p2p_sellers
    (P2P.PHolds (P2P.DocList (P2P.RowDict ∘ P2P.asdict <$> items))) = items.
Proof.
  unfold P2P.load_p2p_sellers.
  induction items as [| x rest IH]; csimpl; [done |].
  rewrite seller_of_fields_asdict. csimpl. by rewrite IH.
Qed.

(** X6: what [save_p2p_sellers] writes, [load_p2p_sellers] reads back:
    the same sellers, in the same order, with the same five fields. *)
Theorem save_then_load_sellers (items : list P2P.P2PSeller) :
  ∃ f, P2P.save_p2p_sellers true items = Ret f /\
       P2P.load_p2p_sellers f = items.
Proof.
  eexists. split; [reflexivity |]. apply load_saved_sellers.
Qed.




(** X8: [/p2p/delete/<idx>] in a logged-in session.  For an index within
    the loaded list and a write that goes through, the file then holds
    the list without that one seller: the sellers before it keep their
    index, the sellers after it move down by one.  For an index outside
    the list nothing is written and the state is unchanged.  A write
    that fails is a server error and leaves the state unchanged. *)
Theorem delete_removes_one_seller (idx : Z) (st : P2P.server) :
  P2P.logged_in st = true ->
  ((0 <= idx < Z.of_nat (length (P2P.load_p2p_sellers (P2P.sellers_file st))))%Z ->
   (P2P.dash_p2p_delete true idx st).2 = P2P.Redirect "dash_p2p" /\
   P2P.load_p2p_sellers (P2P.sellers_file (P2P.dash_p2p_delete true idx st).1)
     = delete (Z.to_nat idx) (P2P.load_p2p_sellers (P2P.sellers_file st)) /\
   (∀ k, P2P.load_p2p_sellers
           (P2P.sellers_file (P2P.dash_p2p_delete true idx st).1) !! k
         = P2P.load_p2p_sellers (P2P.sellers_file st)
             !! (if decide (k < Z.to_nat idx)%nat then k else S k)) /\
   P2P.dash_p2p_delete false idx st = (st, P2P.ServerError)) /\
  (¬ (0 <= idx < Z.of_nat (length (P2P.load_p2p_sellers (P2P.sellers_file st))))%Z ->
   ∀ ok, P2P.dash_p2p_delete ok idx st = (st, P2P.Redirect "dash_p2p")).
Proof.
  intros Hin. unfold P2P.dash_p2p_delete, P2P._is_logged_in. rewrite Hin.
  cbn [negb]. split.
  - intros [H0 Hlen].
    rewrite (proj2 (Z.leb_le 0 idx) H0), (proj2 (Z.ltb_lt _ _) Hlen).
    cbn [andb P2P.save_p2p_sellers fst snd P2P.sellers_file].
    rewrite load_saved_sellers. repeat split.
    intros k. case_decide.
    + by apply list_lookup_delete_lt.
    + apply list_lookup_delete_ge. lia.
  - intros Hout ok.
    destruct (0 <=? idx)%Z eqn:H0; [| done].
    destruct (idx <? _)%Z eqn:Hlen; [| done].
    apply Z.leb_le in H0. apply Z.ltb_lt in Hlen. lia.
Qed.

Lemma delete_removes_one_seller_witness :
  let a := {| P2P.name := "Ann"; P2P.currency := "USDT"; P2P.rate := "41.2";
              P2P.limit := "100-500"; P2P.contact := "@ann" |} in
  let b := {| P2P.name := "Bob"; P2P.currency := "USDT"; P2P.rate := "41.3";
              P2P.limit := "50-900"; P2P.contact := "@bob" |} in
  let st := {| P2P.logged_in := true;
               P2P.sellers_file :=
                 P2P.PHolds (P2P.DocList [P2P.RowDict (P2P.asdict a);
                                          P2P.RowOther;
                                          P2P.RowDict (P2P.asdict b)]) |} in
  P2P.load_p2p_sellers (P2P.sellers_file (P2P.dash_p2p_delete true 0 st).1)
  = [b].
Proof.
  intros a b st.
  destruct (delete_removes_one_seller 0 st eq_refl) as [Hdel _].
  destruct Hdel as (_ & Hload & _); [vm_compute; split; congruence |].
  exact Hload.
Defined.

(** X9: [/p2p/new] and [/p2p/edit/<idx>] posted in a logged-in session
    with a write that goes through.  Adding appends the seller built
    from the form (a missing field is the empty string) to the loaded
    list; when the file was missing, malformed or not a list, the new
    seller is then the only one.  Editing an index within the list
    replaces that seller and no other one; editing an index outside the
    list writes nothing. *)
Theorem add_and_edit_seller (idx : Z) (form : list (string * string))
    (st : P2P.server) :
  P2P.logged_in st = true ->
  P2P.load_p2p_sellers
    (P2P.sellers_file (P2P.dash_p2p_new_post true form st).1)
    = P2P.load_p2p_sellers (P2P.sellers_file st) ++ [P2P.seller_of_form form]
  /\
  ((0 <= idx < Z.of_nat (length (P2P.load_p2p_sellers (P2P.sellers_file st))))%Z ->
   P2P.load_p2p_sellers
     (P2P.sellers_file (P2P.dash_p2p_edit_post true idx form st).1)
   = <[Z.to_nat idx := P2P.seller_of_form form]>
       (P2P.load_p2p_sellers (P2P.sellers_file st))) /\
  (¬ (0 <= idx < Z.of_nat (length (P2P.load_p2p_sellers (P2P.sellers_file st))))%Z ->
   ∀ ok, P2P.dash_p2p_edit_post ok idx form st = (st, P2P.Redirect "dash_p2p")).
Proof.
  intros Hin.
  unfold P2P.dash_p2p_new_post, P2P.dash_p2p_edit_post, P2P._is_logged_in.
  rewrite Hin. cbn [negb]. split; [| split].
  - cbn [P2P.save_p2p_sellers fst P2P.sellers_file].
    by rewrite load_saved_sellers.
  - intros [H0 Hlen].
    rewrite (proj2 (Z.ltb_ge idx 0) H0), (proj2 (Z.leb_gt _ _) Hlen).
    cbn [orb P2P.save_p2p_sellers fst P2P.sellers_file].
    by rewrite load_saved_sellers.
  - intros Hout ok.
    destruct (idx <? 0)%Z eqn:H0; [done |].
    destruct (_ <=? idx)%Z eqn:Hlen; [done |].
    apply Z.ltb_ge in H0. apply Z.leb_gt in Hlen. lia.
Qed.

Lemma add_and_edit_seller_witness :
  let st := {| P2P.logged_in := true;
               P2P.sellers_file := P2P.PMalformed "[{" |} in
  P2P.load_p2p_sellers
    (P2P.sellers_file
       (P2P.dash_p2p_new_post true [("name", "Ann"); ("rate", "41.2")] st).1)
  = [ {| P2P.name := "Ann"; P2P.currency := ""; P2P.rate := "41.2";
         P2P.limit := ""; P2P.contact := "" |} ].
Proof.
  intros st.
  destruct (add_and_edit_seller 0 [("name", "Ann"); ("rate", "41.2")] st
              eq_refl) as [Hadd _].
  rewrite Hadd. reflexivity.
Defined.

(** ** The HTTP helper and the crypto price source *)

Lemma fetch_json_eq server :
  Http.fetch_json server =
    if Http.asks_again (server 0%nat)
    then (2%nat, Http.final (server 1%nat))
    else (1%nat, Http.final (server 0%nat)).
Proof.
  unfold Http.fetch_json, Http.fetch_attempts, Http.asks_again, Http.final.
  destruct (server 0%nat) as [| | s0 b0]; cbn [Nat.eqb andb].
  - destruct (server 1%nat) as [| | s1 b1]; try done.
    rewrite andb_false_r. destruct (400 <=? s1)%Z; [done |].
    by destruct b1.
  - done.
  - rewrite andb_true_r. destruct (s0 =? 429)%Z eqn:H429; cbn [orb].
    + destruct (server 1%nat) as [| | s1 b1]; try done.
      rewrite andb_false_r. destruct (400 <=? s1)%Z; [done |].
      by destruct b1.
    + destruct (400 <=? s0)%Z; cbn [negb andb]; [done |].
      destruct b0; try done.
      destruct (server 1%nat) as [| | s1 b1]; try done.
      rewrite andb_false_r. destruct (400 <=? s1)%Z; [done |].
      by destruct b1.
Qed.

Lemma final_not_nothing a : Http.final a ≠ Http.Nothing.
Proof.
  destruct a as [| | s b]; simpl; try done.
  destruct (400 <=? s)%Z; [done |]. by destruct b.
Qed.

Lemma fetch_json_not_nothing server :
  (Http.fetch_json server).2 ≠ Http.Nothing.
Proof.
  rewrite fetch_json_eq.
  destruct (Http.asks_again (server 0%nat)); apply final_not_nothing.
Qed.

(** X10: [fetch_json] sends one request or two, and the second one
    exactly when the first ended with status 429 or with a timeout
    (while connecting or while reading the body).  It never leaves the
    loop without a result: every call ends with the JSON of a response
    or with an exception. *)
Theorem fetch_json_one_retry (server : nat -> Http.attempt) :
  (Http.fetch_json server).2 ≠ Http.Nothing /\
  ((Http.fetch_json server).1 = 1%nat \/ (Http.fetch_json server).1 = 2%nat) /\
  ((Http.fetch_json server).1 = 2%nat ↔ Http.asks_again (server 0%nat) = true).
Proof.
  rewrite fetch_json_eq.
  destruct (Http.asks_again (server 0%nat)); simpl.
  - split; [apply final_not_nothing |]. split; [by right | done].
  - split; [apply final_not_nothing |]. split; [by left | done].
Qed.

(** X11: the second request is final.  After a first 429 or timeout the
    result is what the second request alone gives: its JSON when the
    status is below 400, [HttpError] for a status from 400 on (a second
    429 too), [TimeoutError] for a second timeout.  Any other first
    failure (a status from 400 on other than 429, a connection error, a
    body that is not JSON) is raised at once, without a second
    request. *)
Theorem fetch_json_second_is_final (server : nat -> Http.attempt) :
  (Http.asks_again (server 0%nat) = true ->
   (Http.fetch_json server).2 = Http.final (server 1%nat)) /\
  (Http.asks_again (server 0%nat) = false ->
   Http.fetch_json server = (1%nat, Http.final (server 0%nat))) /\
  (∀ s b, server 0%nat = Http.Response 429 b ->
          server 1%nat = Http.Response 429 s ->
          (Http.fetch_json server).2 = Http.Failed (Http.HttpError 429)) /\
  (server 0%nat = Http.ConnTimeout -> server 1%nat = Http.ConnTimeout ->
   (Http.fetch_json server).2 = Http.Failed Http.TimeoutError).
Proof.
  rewrite fetch_json_eq. repeat split.
  - by intros ->.
  - by intros ->.
  - intros s b H0 H1. by rewrite H0, H1.
  - intros H0 H1. by rewrite H0, H1.
Qed.

Lemma fetch_json_second_is_final_witness :
  let server := fun n : nat =>
    match n with
    | O => Http.Response 429 Http.BodyError
    | _ => Http.Response 200 (Http.BodyJson (Json.VDict []))
    end in
  (Http.fetch_json server).2 = Http.Got (Json.VDict []).
Proof.
  intros server.
  destruct (fetch_json_second_is_final server) as [H _].
  apply H. reflexivity.
Defined.

Lemma price_in_ret data coin_id vs x :
  Source.price_in data coin_id vs = Ret x ↔
  ∃ f1 f2 v, data = Json.VDict f1 /\
             Json.dict_get f1 coin_id = Some (Json.VDict f2) /\
             Json.dict_get f2 vs = Some v /\ Source.float_of v = Ret x.
Proof.
  unfold Source.price_in, Source.subscript. split.
  - destruct data as [| | | | | | f1]; try done.
    destruct (Json.dict_get f1 coin_id) as [by_coin |] eqn:H1; [| done].
    destruct by_coin as [| | | | | | f2]; try done.
    destruct (Json.dict_get f2 vs) as [v |] eqn:H2; [| done].
    intros Hx. by exists f1, f2, v.
  - intros (f1 & f2 & v & -> & -> & -> & Hx). exact Hx.
Qed.

(** X12: [get_crypto_price] raises exactly when [fetch_json] raises (the
    call is outside the [try]); on every JSON answer it returns, and it
    returns a price only when the answer is an object that holds under
    the coin id an object that holds under the lower-cased currency a
    value that [float] accepts: any other shape gives [None]. *)
Theorem crypto_price_of_answer (server : nat -> Http.attempt)
    (coin_id vs : string) :
  (Source.get_crypto_price server coin_id vs = Raise ↔
   ∃ e, (Http.fetch_json server).2 = Http.Failed e) /\
  (∀ x, Source.get_crypto_price server coin_id vs = Ret (Some x) ↔
        ∃ f1 f2 v,
          (Http.fetch_json server).2 = Http.Got (Json.VDict f1) /\
          Json.dict_get f1 coin_id = Some (Json.VDict f2) /\
          Json.dict_get f2 (PyStr.lower vs) = Some v /\
          Source.float_of v = Ret x).
Proof.
  unfold Source.get_crypto_price.
  pose proof (fetch_json_not_nothing server) as Hsome.
  destruct (Http.fetch_json server).2 as [data | | e] eqn:Hf; [| done |].
  - split.
    + split; [| by intros [e He]].
      by destruct (Source.price_in data coin_id (PyStr.lower vs)).
    + intros x. split.
      * destruct (Source.price_in data coin_id (PyStr.lower vs)) as [y |]
          eqn:Hp; [| done].
        intros [= ->]. apply price_in_ret in Hp as (f1 & f2 & v & -> & ?).
        by exists f1, f2, v.
      * intros (f1 & f2 & v & [= ->] & H1 & H2 & Hx).
        assert (Hp : Source.price_in (Json.VDict f1) coin_id (PyStr.lower vs)
                     = Ret x) by (apply price_in_ret; by exists f1, f2, v).
        by rewrite Hp.
  - split; [split; [by eexists | done] |].
    intros x. split; [done |]. by intros (f1 & f2 & v & ? & _).
Qed.

(** ** The converter *)

(** A negative amount is refused before anything else: for every
    pair of codes, known or not, [convert] raises [ValueError] without
    asking any price source. *)
Theorem convert_refuses_negative (U : Convert.upstream) (amount : float)
    (src dst : string) :
  SFltb amount PyFloat.zero = true ->
  Convert.convert U amount src dst = ([], Convert.Failed Convert.ValueError).
Proof. intros Hneg. unfold Convert.convert. by rewrite Hneg. Qed.

Lemma convert_refuses_negative_witness :
  Convert.convert
    {| Convert.nbu_rate := fun _ => Ret (Some Sample.f65000);
       Convert.crypto_price := fun _ _ => Ret (Some Sample.f65000) |}
    Sample_minus5 "usd" "uah"
  = ([], Convert.Failed Convert.ValueError).
Proof. apply convert_refuses_negative. reflexivity. Defined.

(** When the two codes are the same after stripping white space
    and upper-casing, an amount that is not negative comes back
    unchanged, without any call to a price source; this holds for codes
    that no other branch knows, since the test comes first. *)
Theorem convert_same_currency (U : Convert.upstream) (amount : float)
    (src dst : string) :
  SFltb amount PyFloat.zero = false ->
  Convert._norm_ccy src = Convert._norm_ccy dst ->
  Convert.convert U amount src dst
  = ([], Convert.Done amount Convert.Identity).
Proof.
  intros Hpos Heq. unfold Convert.convert.
  by rewrite Hpos, Heq, String.eqb_refl.
Qed.

Lemma convert_same_currency_witness :
  Convert.convert
    {| Convert.nbu_rate := fun _ => Raise;
       Convert.crypto_price := fun _ _ => Raise |}
    Sample.f65000 " doge" "DOGE "
  = ([], Convert.Done Sample.f65000 Convert.Identity).
Proof. apply convert_same_currency; reflexivity. Defined.

(** A pair for which [convert] has no branch (a coin against a
    coin, an unknown code, UAH against an unknown code) raises "pair not
    supported" without asking a price source, whatever the amount that
    is not negative. *)
Theorem convert_unsupported (U : Convert.upstream) (amount : float)
    (src dst : string) :
  SFltb amount PyFloat.zero = false ->
  Convert.supported (Convert._norm_ccy src) (Convert._norm_ccy dst) = false ->
  Convert.convert U amount src dst
  = ([], Convert.Failed (Convert.RuntimeError "pair not supported")).
Proof.
  intros Hpos Hsup. unfold Convert.convert, Convert.supported in *.
  rewrite Hpos.
  repeat (apply orb_false_iff in Hsup as [Hsup ?]).
  rewrite Hsup.
  repeat match goal with
         | H : _ = false |- _ => rewrite H; clear H
         end.
  done.
Qed.

Lemma convert_unsupported_witness :
  Convert.convert
    {| Convert.nbu_rate := fun _ => Ret (Some Sample.f65000);
       Convert.crypto_price := fun _ _ => Ret (Some Sample.f65000) |}
    Sample.f64000 "btc" "eth"
  = ([], Convert.Failed (Convert.RuntimeError "pair not supported")).
Proof. apply convert_unsupported; reflexivity. Defined.









(** ** The advisor cache *)

Lemma age_of_now s m e :
  Advisor.age (S754_finite s m e) (S754_finite s m e) = S754_zero false.
Proof.
  unfold Advisor.age, SFsub, shl_align. by rewrite Z.min_id, Z.sub_diag.
Qed.

Lemma le_ttl_le_stale x :
  PyFloat.le x Advisor.ADVISOR_CACHE_TTL_SEC = true ->
  PyFloat.le x Advisor.ADVISOR_CACHE_MAX_STALE_SEC = true.
Proof.
  unfold PyFloat.le, SFleb, Advisor.ADVISOR_CACHE_TTL_SEC,
    Advisor.ADVISOR_CACHE_MAX_STALE_SEC.
  destruct x as [s | s | | s m e]; cbn [SFcompare]; try (intros H; exact H).
  destruct s; [intros _; reflexivity |].
  destruct (Z.compare_spec e (-47)) as [-> | Hlt | Hgt].
  - intros _. reflexivity.
  - intros _. destruct (Z.compare_spec e (-36)) as [-> | ? | ?];
      [lia | reflexivity | lia].
  - intros H. discriminate H.
Qed.

Lemma get_set_entry c key e :
  Advisor.get_entry (Advisor.set_entry c (Advisor.key_for key) e)
    (Advisor.key_for key) = e /\
  Advisor.get_entry (Advisor.set_entry c (Advisor.key_for key) e)
    (Advisor.other_key key) = Advisor.get_entry c (Advisor.other_key key).
Proof.
  unfold Advisor.get_entry, Advisor.set_entry, Advisor.key_for,
    Advisor.other_key.
  by destruct (String.eqb key "en").
Qed.

(** X16: a text that was just built is served from the cache.  After a
    call at time [now1] that built the non-empty text [fresh], a call
    for the same language at a time [now2] with [now2 - now1 <= 60]
    returns [fresh] without running the builder (so whether the builder
    would fail does not matter) and leaves the cache as it is; a call
    at [now1] itself is such a call.  The entry of the other language is
    not touched by the build. *)
Theorem advisor_serves_fresh_from_cache (now1 now2 : float)
    (fresh lang : string) (build : outcome string) (c : Advisor.cache) :
  PyStr.truthy fresh = true ->
  SFeqb now1 PyFloat.zero = false ->
  Advisor.built (Advisor.get_advisor_text_cached now1 (Ret fresh) lang c)
    = true ->
  PyFloat.le (Advisor.age now2 now1) Advisor.ADVISOR_CACHE_TTL_SEC = true ->
  Advisor.get_advisor_text_cached now2 build lang
    (Advisor.cache_after
       (Advisor.get_advisor_text_cached now1 (Ret fresh) lang c))
  = {| Advisor.cache_after :=
         Advisor.cache_after
           (Advisor.get_advisor_text_cached now1 (Ret fresh) lang c);
       Advisor.built := false;
       Advisor.answer := Ret fresh |} /\
  Advisor.get_entry
    (Advisor.cache_after
       (Advisor.get_advisor_text_cached now1 (Ret fresh) lang c))
    (Advisor.other_key lang)
  = Advisor.get_entry c (Advisor.other_key lang) /\
  (∀ s m e, now1 = S754_finite s m e ->
     PyFloat.le (Advisor.age now1 now1) Advisor.ADVISOR_CACHE_TTL_SEC = true).
Proof.
  intros Hfresh Hnz Hbuilt Hage.
  assert (Hc1 : Advisor.cache_after
                  (Advisor.get_advisor_text_cached now1 (Ret fresh) lang c)
                = Advisor.set_entry c (Advisor.key_for lang)
                    {| Advisor.ts := now1; Advisor.text := fresh |}).
  { unfold Advisor.get_advisor_text_cached in *.
    fold (Advisor.key_for lang) in *.
    destruct (PyStr.truthy _ && PyFloat.le _ _); [done | done]. }
  rewrite Hc1.
  destruct (get_set_entry c lang
              {| Advisor.ts := now1; Advisor.text := fresh |}) as [Hget Hoth].
  split; [| split].
  - unfold Advisor.get_advisor_text_cached. fold (Advisor.key_for lang).
    rewrite Hget. cbn [Advisor.ts Advisor.text]. by rewrite Hnz, Hfresh, Hage.
  - exact Hoth.
  - intros s m e ->. by rewrite age_of_now.
Qed.

Lemma advisor_serves_fresh_from_cache_witness :
  Advisor.answer
    (Advisor.get_advisor_text_cached Sample.f65500 Raise "en"
       (Advisor.cache_after
          (Advisor.get_advisor_text_cached Sample.f65500 (Ret "BTC: 1") "en"
             Advisor.empty)))
  = Ret "BTC: 1".
Proof.
  destruct (advisor_serves_fresh_from_cache Sample.f65500 Sample.f65500
              "BTC: 1" "en" Raise Advisor.empty) as [H _];
    [reflexivity | reflexivity | reflexivity | reflexivity |].
  by rewrite H.
Defined.

(** X17: when the builder fails (an exception or the 16 s timeout), the
    cache is left as it was, and the call raises exactly when the cache
    holds no non-empty text for the language that is at most 24 hours
    old.  A text older than 60 seconds and at most 24 hours old is
    answered followed by the note that it may be outdated.  The cache as
    it is when the module is loaded never answers: the first call for a
    language always runs the builder and returns what it returns. *)
Theorem advisor_falls_back_on_stale (now : float) (lang : string)
    (c : Advisor.cache) :
  Advisor.cache_after (Advisor.get_advisor_text_cached now Raise lang c) = c /\
  (Advisor.answer (Advisor.get_advisor_text_cached now Raise lang c) = Raise ↔
   PyStr.truthy (Advisor.text (Advisor.get_entry c (Advisor.key_for lang)))
   && PyFloat.le
        (Advisor.cached_age now (Advisor.get_entry c (Advisor.key_for lang)))
        Advisor.ADVISOR_CACHE_MAX_STALE_SEC = false) /\
  (PyFloat.le
     (Advisor.cached_age now (Advisor.get_entry c (Advisor.key_for lang)))
     Advisor.ADVISOR_CACHE_TTL_SEC = false ->
   PyStr.truthy (Advisor.text (Advisor.get_entry c (Advisor.key_for lang)))
   && PyFloat.le
        (Advisor.cached_age now (Advisor.get_entry c (Advisor.key_for lang)))
        Advisor.ADVISOR_CACHE_MAX_STALE_SEC = true ->
   Advisor.answer (Advisor.get_advisor_text_cached now Raise lang c)
   = Ret (Advisor.text (Advisor.get_entry c (Advisor.key_for lang))
          ++ Advisor.note (Advisor.key_for lang))%string) /\
  (∀ build,
     Advisor.get_advisor_text_cached now build lang Advisor.empty
     = {| Advisor.cache_after :=
            match build with
            | Ret fresh =>
                Advisor.set_entry Advisor.empty (Advisor.key_for lang)
                  {| Advisor.ts := now; Advisor.text := fresh |}
            | Raise => Advisor.empty
            end;
          Advisor.built := true;
          Advisor.answer := build |}).
Proof.
  unfold Advisor.get_advisor_text_cached.
  fold (Advisor.key_for lang).
  fold (Advisor.cached_age now (Advisor.get_entry c (Advisor.key_for lang))).
  set (e := Advisor.get_entry c (Advisor.key_for lang)).
  split; [| split; [| split]].
  - by repeat case_match.
  - destruct (PyStr.truthy (Advisor.text e)); cbn [andb]; [| done].
    destruct (PyFloat.le (Advisor.cached_age now e)
                Advisor.ADVISOR_CACHE_TTL_SEC) eqn:Httl.
    + by rewrite (le_ttl_le_stale _ Httl).
    + by destruct (PyFloat.le _ Advisor.ADVISOR_CACHE_MAX_STALE_SEC).
  - intros -> ->. by rewrite andb_false_r.
  - intros build.
    assert (He : Advisor.text
                   (Advisor.get_entry Advisor.empty (Advisor.key_for lang))
                 = "").
    { unfold Advisor.get_entry, Advisor.key_for.
      by destruct (String.eqb lang "en"). }
    rewrite He. cbn [PyStr.truthy andb]. by destruct build.
Qed.

Lemma advisor_falls_back_on_stale_witness :
  let c := {| Advisor.ua := {| Advisor.ts := Sample.f64000;
                               Advisor.text := "BTC: 1" |};
              Advisor.en := {| Advisor.ts := PyFloat.zero;
                               Advisor.text := "" |} |} in
  Advisor.answer (Advisor.get_advisor_text_cached Sample.f65500 Raise "ua" c)
  = Ret ("BTC: 1" ++ Advisor.note "ua")%string.
Proof.
  intros c.
  destruct (advisor_falls_back_on_stale Sample.f65500 "ua" c) as (_ & _ & H & _).
  apply H; vm_compute; reflexivity.
Defined.

(** ** More on the alert engine *)






Lemma send_indices_app l1 l2 :
  send_indices (l1 ++ l2) = send_indices l1 ++ send_indices l2.
Proof. apply omap_app. Qed.

Lemma send_indices_none (p : event -> bool) l :
  (∀ i n ok, p (Send i n ok) = false) ->
  forallb p l = true -> send_indices l = [].
Proof.
  intros Hp. induction l as [| e l IH]; [done |]. simpl.
  intros [He Hl]%andb_true_iff. destruct e; try (by apply IH).
  by rewrite Hp in He.
Qed.

Lemma checked_indices E prices i items l evs res :
  checked E prices i items l evs res ->
  Forall (fun j => (i <= j)%nat) (send_indices evs) /\
  NoDup (send_indices evs).
Proof.
  induction 1 as [i l | i a rest l evs res Hf _ [IH1 IH2]
                  | i a cur rest l evs res Hf Hp Hs _ [IH1 IH2]
                  | i a cur rest l Hf Hp Hs].
  - split; constructor.
  - split; [| done]. eapply Forall_impl; [exact IH1 |].
    simpl. intros j Hj. lia.
  - split.
    + constructor; [lia |]. eapply Forall_impl; [exact IH1 |].
      simpl. intros j Hj. lia.
    + unfold send_indices. simpl. apply NoDup_cons. split; [| done].
      intros Hin. rewrite Forall_forall in IH1.
      specialize (IH1 i Hin). lia.
  - split; [repeat constructor |].
    apply NoDup_cons. split; [apply not_elem_of_nil | constructor].
Qed.

Lemma sent_is_justified (E : env) (f : file_state) i n ok :
  Send i n ok ∈ cycle_log E f ->
  ∃ a cur o,
    stored_alerts f !! i = Some a /\ active a = true /\
    n = notice E a cur /\
    Fetch (PyStr.upper (symbol a)) o ∈ cycle_log E f /\
    stored_price o = Some cur /\ crossing a cur.
Proof.
  destruct (cycle_anatomy E f)
    as (fev & prices & sev & res & ws & Hf & Hc & _ & _ & _ & _ & Hfe & Hse).
  intros Hin. apply Hse in Hin.
  destruct (checked_fired _ _ _ _ _ _ _ _ _ _ Hc Hin)
    as (_ & a & cur & Ha & Hfa & Hp & ->).
  rewrite Nat.sub_0_r in Ha.
  assert (Hact : active a = true) by (by apply andb_true_iff in Hfa as [? _]).
  assert (Hin' : PyStr.upper (symbol a) ∈ fetched fev).
  { destruct (decide (PyStr.upper (symbol a) ∈ fetched fev)); [done |].
    unfold price_for, price_get in Hp.
    by rewrite (fetching_other _ _ _ _ _ _ _ Hf n), lookup_empty in Hp. }
  apply fetched_elem in Hin' as [o Ho].
  exists a, cur, o. repeat split; try done.
  - by apply Hfe.
  - rewrite <- (cycle_price E f fev prices _ o Hf Ho). exact Hp.
  - apply hit_crossing. unfold fires in Hfa. rewrite Hact, Hp in Hfa.
    exact Hfa.
Qed.

(** X19: in one cycle every alert gets at most one message, and every
    message is justified: it is about an alert that was active in the
    store when the cycle began, it is addressed to the owner of that
    alert, it quotes the target of the alert and a price that was
    fetched in this very cycle for the symbol of the alert, and at that
    price the condition of the alert holds. *)
Theorem messages_are_justified (E : env) (f : file_state) :
  NoDup (send_indices (cycle_log E f)) /\
  ∀ i n ok,
    Send i n ok ∈ cycle_log E f ->
    ∃ a cur o,
      stored_alerts f !! i = Some a /\ active a = true /\
      n = notice E a cur /\ n_user n = user_id a /\ n_target n = target a /\
      n_price n = cur /\
      Fetch (PyStr.upper (symbol a)) o ∈ cycle_log E f /\
      stored_price o = Some cur /\ crossing a cur.
Proof.
  split.
  - destruct (cycle_anatomy E f)
      as (fev & prices & sev & res & ws & Hf & Hc & Hlog & Hws & _).
    rewrite Hlog, !send_indices_app.
    rewrite (send_indices_none is_fetch fev), (send_indices_none is_write ws);
      try done.
    + rewrite app_nil_r. simpl. apply (checked_indices _ _ _ _ _ _ _ Hc).
    + by destruct Hws as [-> | (items' & _ & _ & ->)].
    + apply (fetching_fetched _ _ _ _ _ _ Hf).
  - intros i n ok Hin.
    destruct (sent_is_justified E f i n ok Hin)
      as (a & cur & o & Ha & Hact & -> & Ho & Hcur & Hx).
    exists a, cur, o. repeat split; done.
Qed.

Lemma messages_are_justified_witness :
  ∃ a, stored_alerts (Holds (JList [Sample.btc_above 42 Sample.f65000 true]))
         !! 0%nat = Some a /\
       crossing a Sample.f65500.
Proof.
  destruct (messages_are_justified (Sample.calm Sample.f65500)
              (Holds (JList [Sample.btc_above 42 Sample.f65000 true])))
    as [_ H].
  destruct (H 0%nat
              (notice (Sample.calm Sample.f65500)
                 (Sample.btc_above 42 Sample.f65000 true) Sample.f65500)
              true)
    as (a & cur & o & Ha & _ & _ & _ & _ & Hn & _ & _ & Hx).
  { apply elem_of_cons. right. apply elem_of_cons. by left. }
  exists a. split; [exact Ha |]. simpl in Hn. by subst cur.
Defined.








